(** * Multi-head latent attention (MLA): decode and prefill entry points

    A shallow embedding of [aiter/mla.py]:
    - [get_meta_param], the split-count heuristic and the chunk-size table;
    - [_fwd_kernel_stage2_asm], the Triton stage-2 reduction, one program
      instance per grid unit [(cur_batch, cur_head, cur_qo_offs)];
    - [mla_decode_fwd] and [mla_prefill_fwd], the two public entry points.

    Python integers are [Z].  Python floats of the heuristic are taken in
    exact arithmetic as [Q].  The float32 values of the kernel are kept
    abstract behind the interface [FloatOps]; the instance [xreal] reads
    them as exact reals extended with the IEEE special values. *)

From Stdlib Require Import ZArith QArith Reals Lra Lia List Bool String.
From Stdlib Require Import Sorting.Sorted Lists.Finite.
From Stdlib Require Lqa.
Import ListNotations.

Local Open Scope Z_scope.

(** ** Python exceptions and the result of a call *)

Inductive exception : Type :=
| AssertionError_logit_cap (logit_cap : Q)  (* "{logit_cap=} is not support yet" *)
| AssertionError_nhead (nhead : Z)          (* "{nhead=} not supported" *)
| ZeroDivisionError
| IndexError
| UnboundLocalError (name : string).


Inductive py (A : Type) : Type :=
| Return (a : A)
| Raise (e : exception).

Arguments Return {A} a.
Arguments Raise {A} e.

Definition py_bind {A B : Type} (c : py A) (k : A -> py B) : py B :=
  match c with
  | Return a => k a
  | Raise e => Raise e
  end.

Notation "x <- c ;; k" := (py_bind c (fun x => k))
  (at level 61, c at next level, right associativity).

Fixpoint py_mapM {A B : Type} (f : A -> py B) (l : list A) : py (list B) :=
  match l with
  | [] => Return []
  | x :: l' => y <- f x ;; ys <- py_mapM f l' ;; Return (y :: ys)
  end.

(** [range(lo, hi)] *)
Definition py_range (lo hi : Z) : list Z :=
  map (fun k => lo + Z.of_nat k) (seq 0 (Z.to_nat (hi - lo))).

(** [a / b] on numbers and [a // b] on integers *)
Definition py_truediv (a b : Q) : py Q :=
  if Qeq_bool b 0 then Raise ZeroDivisionError else Return (a / b)%Q.

Definition py_floordiv (a b : Z) : py Z :=
  if b =? 0 then Raise ZeroDivisionError else Return (a / b).

(** ** [get_meta_param] *)

Definition Qlt_bool (a b : Q) : bool := negb (Qle_bool b a).

(** [sorted(tmp, key=lambda x: x[0], reverse=True)]: a stable sort in
    descending key order; entries with equal keys keep their order. *)
Fixpoint insert_desc (x : Q * Z) (l : list (Q * Z)) : list (Q * Z) :=
  match l with
  | [] => [x]
  | y :: l' => if Qlt_bool (fst x) (fst y) then y :: insert_desc x l' else x :: l
  end.

Definition sorted_desc (l : list (Q * Z)) : list (Q * Z) :=
  fold_right insert_desc [] l.

Definition overhead : Q := 841 # 10.

(** One entry of the list comprehension, for candidate [i]. *)
Definition score_entry (cu_num bs : Z) (avg_kv : Q) (i : Z) : py (Q * Z) :=
  q <- py_floordiv (bs * i + cu_num - 1) cu_num ;;
  r <- py_truediv (inject_Z (bs * i)) (inject_Z (q * cu_num)) ;;
  s <- py_truediv (r * avg_kv)%Q (avg_kv + overhead * inject_Z i)%Q ;;
  Return (s, i).

Definition heuristic_splits (cu_num bs total_kv : Z) : py Z :=
  avg_kv <- py_truediv (inject_Z total_kv) (inject_Z bs) ;;
  tmp <- py_mapM (score_entry cu_num bs avg_kv) (py_range 1 17) ;;
  match sorted_desc tmp with
  | x :: _ => Return (snd x)
  | [] => Raise IndexError
  end.

(** [get_mgc = {16: 16, 128: 16}] *)
Definition get_mgc : list (Z * Z) := [(16, 16); (128, 16)].

Fixpoint dict_get (d : list (Z * Z)) (k : Z) : option Z :=
  match d with
  | [] => None
  | (k', v) :: d' => if k =? k' then Some v else dict_get d' k
  end.

(** The block [if num_kv_splits is None: ...]. *)
Definition resolve_num_kv_splits (cu_num : Z) (num_kv_splits : option Z)
    (bs total_kv : Z) : py Z :=
  match num_kv_splits with
  | None => heuristic_splits cu_num bs total_kv
  | Some n => Return n
  end.

(** [cu_num] is the value of [get_cu_num()], the number of compute units
    of the device. *)
Definition get_meta_param (cu_num : Z) (num_kv_splits : option Z)
    (bs total_kv nhead max_seqlen_q : Z) : py (Z * Z) :=
  num_kv_splits <- resolve_num_kv_splits cu_num num_kv_splits bs total_kv ;;
  match dict_get get_mgc nhead with
  | None => Raise (AssertionError_nhead nhead)
  | Some mgc =>
      let mgc := if (max_seqlen_q =? 1) && (nhead =? 16) then 64 else mgc in
      Return (num_kv_splits, mgc)
  end.

(** The score of the specification, in its own words:
    [(bs*i / ceil_to_compute_unit_multiple(bs*i)) * avg_kv / (avg_kv + 84.1*i)]
    with [avg_kv = total_kv / bs]. *)
Definition ceil_to_compute_unit_multiple (cu_num x : Z) : Z :=
  (x + cu_num - 1) / cu_num * cu_num.

Definition spec_score (cu_num bs total_kv i : Z) : Q :=
  let avg_kv := (inject_Z total_kv / inject_Z bs)%Q in
  (inject_Z (bs * i) / inject_Z (ceil_to_compute_unit_multiple cu_num (bs * i))
   * avg_kv / (avg_kv + overhead * inject_Z i))%Q.

(** The entry a stable descending sort puts first: the earliest entry
    among those of greatest key. *)
Fixpoint first_max (l : list (Q * Z)) : option (Q * Z) :=
  match l with
  | [] => None
  | x :: l' =>
      match first_max l' with
      | None => Some x
      | Some b => if Qlt_bool (fst x) (fst b) then Some b else Some x
      end
  end.

(** ** Float values of the kernel *)

(** The operations the Triton kernel applies to float32 values. *)
Class FloatOps (F : Type) : Type := {
  f_zero : F;                 (* 0.0 *)
  f_neg_inf : F;              (* -float("inf") *)
  f_add : F -> F -> F;
  f_sub : F -> F -> F;
  f_mul : F -> F -> F;
  f_div : F -> F -> F;
  f_max : F -> F -> F;        (* tl.maximum *)
  f_exp : F -> F              (* tl.exp *)
}.

(** Exact arithmetic with the IEEE 754 special values: a finite value is
    a real number and no operation rounds; infinities and NaN arise and
    propagate as in IEEE arithmetic (signed zeros are not told apart). *)
Inductive xreal : Type :=
| Fin (r : R)
| PInf
| NInf
| NaN.

Definition xneg (x : xreal) : xreal :=
  match x with
  | Fin r => Fin (- r)
  | PInf => NInf
  | NInf => PInf
  | NaN => NaN
  end.

Definition xadd (x y : xreal) : xreal :=
  match x, y with
  | NaN, _ | _, NaN => NaN
  | Fin a, Fin b => Fin (a + b)
  | PInf, NInf | NInf, PInf => NaN
  | PInf, _ | _, PInf => PInf
  | NInf, _ | _, NInf => NInf
  end.

Definition xsub (x y : xreal) : xreal := xadd x (xneg y).

(** An infinity scaled by the finite factor [a]. *)
Definition xscale_inf (a : R) (pos : bool) : xreal :=
  if Req_dec_T a 0 then NaN
  else if Rlt_dec 0 a then (if pos then PInf else NInf)
       else (if pos then NInf else PInf).

Definition xmul (x y : xreal) : xreal :=
  match x, y with
  | NaN, _ | _, NaN => NaN
  | Fin a, Fin b => Fin (a * b)
  | Fin a, PInf | PInf, Fin a => xscale_inf a true
  | Fin a, NInf | NInf, Fin a => xscale_inf a false
  | PInf, PInf | NInf, NInf => PInf
  | PInf, NInf | NInf, PInf => NInf
  end.

Definition xdiv (x y : xreal) : xreal :=
  match x, y with
  | NaN, _ | _, NaN => NaN
  | Fin a, Fin b =>
      if Req_dec_T b 0
      then (if Req_dec_T a 0 then NaN
            else if Rlt_dec 0 a then PInf else NInf)
      else Fin (a / b)
  | Fin _, PInf | Fin _, NInf => Fin 0
  | PInf, Fin b => if Rlt_dec b 0 then NInf else PInf
  | NInf, Fin b => if Rlt_dec b 0 then PInf else NInf
  | PInf, PInf | PInf, NInf | NInf, PInf | NInf, NInf => NaN
  end.

(** [tl.maximum] without NaN propagation: a NaN operand is dropped. *)
Definition xmax (x y : xreal) : xreal :=
  match x, y with
  | NaN, _ => y
  | _, NaN => x
  | PInf, _ | _, PInf => PInf
  | NInf, _ => y
  | _, NInf => x
  | Fin a, Fin b => Fin (Rmax a b)
  end.

Definition xexp (x : xreal) : xreal :=
  match x with
  | Fin r => Fin (exp r)
  | PInf => PInf
  | NInf => Fin 0
  | NaN => NaN
  end.

#[export] Instance xreal_ops : FloatOps xreal := {
  f_zero := Fin 0;
  f_neg_inf := NInf;
  f_add := xadd;
  f_sub := xsub;
  f_mul := xmul;
  f_div := xdiv;
  f_max := xmax;
  f_exp := xexp
}.

(** ** Memory, loads and stores *)

Inductive buffer : Type :=
| B_qo_indptr | B_kv_indptr | B_Mid_O | B_Mid_lse | B_O.

(** One [tl.load] or [tl.store], with the addresses of its active lanes. *)
Inductive access : Type :=
| Load (b : buffer) (addrs : list Z)
| Store (b : buffer) (addrs : list Z).

Definition upd {A : Type} (m : Z -> A) (a : Z) (v : A) : Z -> A :=
  fun a' => if a' =? a then v else m a'.

Definition active (ptrs : list Z) (mask : list bool) : list Z :=
  map fst (filter snd (combine ptrs mask)).

(** [tl.load(ptrs, mask=mask, other=other)] *)
Definition tl_load_masked {A : Type} (m : Z -> A) (ptrs : list Z)
    (mask : list bool) (other : A) : list A :=
  map (fun pm : Z * bool => if snd pm then m (fst pm) else other)
      (combine ptrs mask).

(** [tl.store(ptrs, vals, mask=mask)] *)
Definition tl_store_masked {A : Type} (m : Z -> A) (ptrs : list Z)
    (vals : list A) (mask : list bool) : Z -> A :=
  fold_left
    (fun m' (l : Z * A * bool) =>
       if snd l then upd m' (fst (fst l)) (snd (fst l)) else m')
    (combine (combine ptrs vals) mask) m.

(** [tl.cdiv(x, div) = (x + div - 1) // div], with Triton's truncating
    integer division. *)
Definition tl_cdiv (x div : Z) : Z := Z.quot (x + div - 1) div.

Definition tl_arange (lo hi : Z) : list Z := py_range lo hi.

Fixpoint map2 {A B C : Type} (f : A -> B -> C) (l1 : list A) (l2 : list B)
    : list C :=
  match l1, l2 with
  | a :: l1', b :: l2' => f a b :: map2 f l1' l2'
  | _, _ => []
  end.

(** ** The stage-2 kernel [_fwd_kernel_stage2_asm] *)

(** The scalar and compile-time arguments of a launch. *)
Record stage2_consts : Type := {
  stride_mid_ob : Z;
  stride_mid_oh : Z;
  stride_mid_os : Z;
  stride_obs : Z;
  stride_oh : Z;
  bs : Z;
  nheads : Z;
  max_seqlen_q : Z;
  NUM_KV_SPLITS : Z;
  BLOCK_DV : Z;
  Lv : Z;
  mgc : Z
}.

Record loop_state (F : Type) : Type := {
  e_sum : F;
  e_max : F;
  acc : list F;
  log : list access
}.

Arguments e_sum {F} _.
Arguments e_max {F} _.
Arguments acc {F} _.
Arguments log {F} _.

Record kernel_result (F : Type) : Type := {
  trace : list access;
  O_out : Z -> F
}.

Arguments trace {F} _.
Arguments O_out {F} _.

Section Stage2.
Context {F : Type} {ops : FloatOps F}.
Variable c : stage2_consts.
Variables qo_indptr kv_indptr : Z -> Z.
Variables Mid_O Mid_lse : Z -> F.

Definition kv_len_per_split (cur_kv_seq_len : Z) : Z :=
  Z.max (mgc c) (tl_cdiv cur_kv_seq_len (NUM_KV_SPLITS c)).

Definition split_kv_start (cur_kv_seq_len split_kv_id : Z) : Z :=
  kv_len_per_split cur_kv_seq_len * split_kv_id.

Definition split_kv_end (cur_kv_seq_len split_kv_id : Z) : Z :=
  Z.min (split_kv_start cur_kv_seq_len split_kv_id
         + kv_len_per_split cur_kv_seq_len) cur_kv_seq_len.

(** Addresses of [Mid_O + offs_v + split_kv_id * stride_mid_os * Lv] and
    of [Mid_lse + offs_logic + split_kv_id * stride_mid_os]. *)
Definition ptrs_v (offs_v : list Z) (split_kv_id : Z) : list Z :=
  map (fun a => a + split_kv_id * stride_mid_os c * Lv c) offs_v.

Definition ptr_logic (offs_logic split_kv_id : Z) : Z :=
  offs_logic + split_kv_id * stride_mid_os c.

(** One iteration of [for split_kv_id in range(0, NUM_KV_SPLITS)]. *)
Definition split_body (cur_kv_seq_len offs_logic : Z) (offs_v : list Z)
    (mask_d : list bool) (st : loop_state F) (split_kv_id : Z)
    : loop_state F :=
  if split_kv_end cur_kv_seq_len split_kv_id
     >? split_kv_start cur_kv_seq_len split_kv_id
  then
    let tv := tl_load_masked Mid_O (ptrs_v offs_v split_kv_id) mask_d f_zero in
    let tlogic := Mid_lse (ptr_logic offs_logic split_kv_id) in
    let n_e_max := f_max tlogic (e_max st) in
    let old_scale := f_exp (f_sub (e_max st) n_e_max) in
    let acc1 := map (fun a => f_mul a old_scale) (acc st) in
    let exp_logic := f_exp (f_sub tlogic n_e_max) in
    let acc2 := map2 f_add acc1 (map (f_mul exp_logic) tv) in
    {| e_sum := f_add (f_mul (e_sum st) old_scale) exp_logic;
       e_max := n_e_max;
       acc := acc2;
       log := log st
              ++ [Load B_Mid_O (active (ptrs_v offs_v split_kv_id) mask_d);
                  Load B_Mid_lse [ptr_logic offs_logic split_kv_id]] |}
  else st.

Definition offs_d : list Z := tl_arange 0 (BLOCK_DV c).
Definition mask_d : list bool := map (fun d => d <? Lv c) offs_d.

Definition offs_v (cur_qo cur_head : Z) : list Z :=
  map (fun d => (cur_qo * stride_mid_ob c + cur_head * stride_mid_oh c)
                * Lv c + d) offs_d.

Definition offs_logic (cur_qo cur_head : Z) : Z :=
  cur_qo * stride_mid_ob c + cur_head * stride_mid_oh c.

Definition ptrs_o (cur_qo cur_head : Z) : list Z :=
  map (fun d => cur_qo * stride_obs c + cur_head * stride_oh c + d) offs_d.

Definition guard_loads (cur_batch : Z) : list access :=
  [Load B_qo_indptr [cur_batch]; Load B_qo_indptr [cur_batch + 1]].

Definition init_state (cur_batch : Z) : loop_state F :=
  {| e_sum := f_zero;
     e_max := f_neg_inf;
     acc := map (fun _ => f_zero) offs_d;
     log := guard_loads cur_batch
            ++ [Load B_kv_indptr [cur_batch + 1];
                Load B_kv_indptr [cur_batch]] |}.

(** The state after the loop over all splits. *)
Definition reduce (cur_batch cur_head cur_qo : Z) : loop_state F :=
  let cur_kv_seq_len := kv_indptr (cur_batch + 1) - kv_indptr cur_batch in
  fold_left
    (split_body cur_kv_seq_len (offs_logic cur_qo cur_head)
                (offs_v cur_qo cur_head) mask_d)
    (py_range 0 (NUM_KV_SPLITS c))
    (init_state cur_batch).

(** The program instance with
    [program_id = (cur_batch, cur_head, cur_qo_offs)], run on the output
    memory [O]. *)
Definition _fwd_kernel_stage2_asm (program_id : Z * Z * Z) (O : Z -> F)
    : kernel_result F :=
  let '(cur_batch, cur_head, cur_qo_offs) := program_id in
  let cur_qo_start := qo_indptr cur_batch in
  let cur_qo_end := qo_indptr (cur_batch + 1) in
  let cur_qo := cur_qo_start + cur_qo_offs in
  if cur_qo >? cur_qo_end then
    {| trace := guard_loads cur_batch; O_out := O |}
  else
    let st := reduce cur_batch cur_head cur_qo in
    {| trace := log st ++ [Store B_O (active (ptrs_o cur_qo cur_head) mask_d)];
       O_out := tl_store_masked O (ptrs_o cur_qo cur_head)
                  (map (fun a => f_div a (e_sum st)) (acc st)) mask_d |}.
End Stage2.

(** ** The entry points [mla_decode_fwd] and [mla_prefill_fwd] *)

(** The storage a tensor lives in: the caller's [o], or one of the two
    [torch.empty] allocations of a call. *)
Inductive storage : Type :=
| Caller_o
| Empty_logits
| Empty_attn_lse.

Record tensor : Type := {
  storage_of : storage;
  shape : list Z
}.

Definition numel (t : tensor) : Z := fold_right Z.mul 1 (shape t).

(** [sm_scale]: the caller's value, or the default
    [1.0 / (qk_head_dim**0.5)]. *)
Inductive scale : Type :=
| Scale (s : Q)
| Default_scale (qk_head_dim : Z).

(** What a call does to the outside, in program order. *)
Inductive call : Type :=
| logging_basicConfig (filename : string)
| logging_debug (msg : string)
| torch_empty (t : tensor)
| mla_decode_stage1_asm_fwd (max_seqlen_q : Z) (sm_scale : scale)
    (logits attn_lse : tensor)
| mla_prefill_asm_fwd (max_seqlen_q : Z) (sm_scale : scale)
    (logits attn_lse : tensor)
| launch_stage2 (grid : Z * Z * Z) (logits attn_lse o : tensor)
    (c : stage2_consts).

(** Calls done so far, and the value or the exception of the body. *)
Definition M (A : Type) : Type := list call -> list call * py A.

Definition ret {A : Type} (a : A) : M A := fun w => (w, Return a).
Definition raise {A : Type} (e : exception) : M A := fun w => (w, Raise e).
Definition lift {A : Type} (r : py A) : M A := fun w => (w, r).
Definition emit (k : call) : M unit := fun w => (w ++ [k], Return tt).

Definition bindM {A B : Type} (m : M A) (k : A -> M B) : M B :=
  fun w =>
    match m w with
    | (w', Return a) => k a w'
    | (w', Raise e) => (w', Raise e)
    end.

Notation "x <-- m ;; k" := (bindM m (fun x => k))
  (at level 61, m at next level, right associativity).

Definition run {A : Type} (m : M A) : list call * py A := m [].

Definition py_assert (b : bool) (e : exception) : M unit :=
  if b then ret tt else raise e.

(** Reading a local variable of the function body: unbound until it has
    been assigned. *)
Definition read_local (name : string) (v : option Z) : M Z :=
  match v with
  | Some x => ret x
  | None => raise (UnboundLocalError name)
  end.

(** [1.0 / (qk_head_dim**0.5)] *)
Definition default_scale (qk_head_dim : Z) : py scale :=
  if qk_head_dim =? 0 then Raise ZeroDivisionError
  else Return (Default_scale qk_head_dim).

(** [torch.empty(shape, ...)] into the storage [s]. *)
Definition empty (s : storage) (sh : list Z) : M tensor :=
  let t := {| storage_of := s; shape := sh |} in
  _ <-- emit (torch_empty t) ;; ret t.

(** [t.view(shape)] *)
Definition view (t : tensor) (sh : list Z) : tensor :=
  {| storage_of := storage_of t; shape := sh |}.

(** Strides of a freshly allocated (contiguous) tensor. *)
Fixpoint contiguous_strides (sh : list Z) : list Z :=
  match sh with
  | [] => []
  | _ :: sh' =>
      let rest := contiguous_strides sh' in
      match hd_error sh', hd_error rest with
      | Some n, Some st => st * Z.max n 1 :: rest
      | _, _ => 1 :: rest
      end
  end.

Definition stride (t : tensor) (k : nat) : Z :=
  nth k (contiguous_strides (shape t)) 0.

(** Modelled from the spec: [triton.next_power_of_2], which is not part
    of this repository's sources; the accumulator is padded to the next
    power of two of lanes. *)
Definition next_power_of_2 (n : Z) : Z := 2 ^ Z.log2_up n.

Record decode_args : Type := {
  d_kv_buffer_shape : Z * Z * Z * Z;
  d_o_shape : Z * Z * Z;
  d_o_stride : Z * Z;
  d_qo_indptr_shape0 : Z;
  d_kv_indices_shape0 : Z;
  d_max_seqlen_q : Z;
  d_sm_scale : option Q;
  d_logit_cap : Q;
  d_num_kv_splits : option Z
}.

Definition caller_o (a : decode_args) : tensor :=
  let '(total_s, nhead, v_head_dim) := d_o_shape a in
  {| storage_of := Caller_o; shape := [total_s; nhead; v_head_dim] |}.

Definition d_qk_head_dim (a : decode_args) : Z := snd (d_kv_buffer_shape a).
Definition d_total_s (a : decode_args) : Z := fst (fst (d_o_shape a)).
Definition d_nhead (a : decode_args) : Z := snd (fst (d_o_shape a)).
Definition d_v_head_dim (a : decode_args) : Z := snd (d_o_shape a).
Definition d_bs (a : decode_args) : Z := d_qo_indptr_shape0 a - 1.

(** The arguments of the launch [_fwd_kernel_stage2_asm[grid](...)]. *)
Definition launch_consts (a : decode_args) (attn_lse : tensor)
    (num_kv_splits BLOCK_DV Lv mgc : Z) : stage2_consts :=
  {| stride_mid_ob := stride attn_lse 0;
     stride_mid_oh := stride attn_lse 2;
     stride_mid_os := stride attn_lse 1;
     stride_obs := fst (d_o_stride a);
     stride_oh := snd (d_o_stride a);
     bs := d_bs a;
     nheads := d_nhead a;
     max_seqlen_q := d_max_seqlen_q a;
     NUM_KV_SPLITS := num_kv_splits;
     BLOCK_DV := BLOCK_DV;
     Lv := Lv;
     mgc := mgc |}.

Definition mla_decode_fwd (cu_num : Z) (a : decode_args)
    : M (tensor * tensor) :=
  let max_seqlen_q := d_max_seqlen_q a in
  _ <-- emit (logging_basicConfig "/sgl-workspace/mla_decode_fwd.log") ;;
  _ <-- emit (logging_debug "MLA Decode Forward Parameters:") ;;
  _ <-- py_assert (Qle_bool (d_logit_cap a) 0)
          (AssertionError_logit_cap (d_logit_cap a)) ;;
  let '(num_page, page_size, nhead_kv, qk_head_dim) := d_kv_buffer_shape a in
  sm_scale <-- match d_sm_scale a with
               | None => lift (default_scale qk_head_dim)
               | Some s => ret (Scale s)
               end ;;
  let '(total_s, nhead, v_head_dim) := d_o_shape a in
  let bs := d_qo_indptr_shape0 a - 1 in
  let total_kv := d_kv_indices_shape0 a in
  meta <-- lift (get_meta_param cu_num (d_num_kv_splits a)
                   bs total_kv nhead max_seqlen_q) ;;
  let '(num_kv_splits, mgc) := meta in
  _ <-- emit (logging_debug "nhead max_seqlen_q") ;;
  logits <-- (if (nhead =? 16) && (max_seqlen_q =? 1) then
                empty Empty_logits [total_s; num_kv_splits; nhead; v_head_dim]
              else if (nhead =? 16) || (nhead =? 128) then
                if num_kv_splits =? 1 then
                  ret (view (caller_o a)
                         [total_s; num_kv_splits; nhead; v_head_dim])
                else
                  empty Empty_logits
                    [total_s; num_kv_splits; nhead; v_head_dim]
              else raise (AssertionError_nhead nhead)) ;;
  attn_lse <-- empty Empty_attn_lse [total_s; num_kv_splits; nhead; 1] ;;
  _ <-- emit (mla_decode_stage1_asm_fwd max_seqlen_q sm_scale logits attn_lse) ;;
  if (num_kv_splits =? 1) && negb ((max_seqlen_q =? 1) && (nhead =? 16)) then
    ret (view logits [total_s; nhead; v_head_dim], attn_lse)
  else
    let Lv := v_head_dim in
    let BLOCK_DV := next_power_of_2 Lv in
    let grid := (bs, nhead, max_seqlen_q) in
    _ <-- emit (launch_stage2 grid logits attn_lse (caller_o a)
                  (launch_consts a attn_lse num_kv_splits BLOCK_DV Lv mgc)) ;;
    ret (logits, attn_lse).

Record prefill_args : Type := {
  p_kv_buffer_shape : Z * Z * Z * Z;
  p_o_shape : Z * Z * Z;
  p_max_seqlen_q : Z;
  p_sm_scale : option Q;
  p_logit_cap : Q
}.

Definition mla_prefill_fwd (a : prefill_args) : M (tensor * tensor) :=
  (* the local [qk_head_dim] is assigned only after [sm_scale] *)
  let qk_head_dim : option Z := None in
  _ <-- py_assert (Qle_bool (p_logit_cap a) 0)
          (AssertionError_logit_cap (p_logit_cap a)) ;;
  sm_scale <-- match p_sm_scale a with
               | None => d <-- read_local "qk_head_dim" qk_head_dim ;;
                         lift (default_scale d)
               | Some s => ret (Scale s)
               end ;;
  let '(num_page, page_size, nhead_kv, qk_head_dim) := p_kv_buffer_shape a in
  let '(bs, nhead, v_head_dim) := p_o_shape a in
  let o := {| storage_of := Caller_o; shape := [bs; nhead; v_head_dim] |} in
  let num_kv_splits := 1 in
  let logits := view o [bs; num_kv_splits; nhead; v_head_dim] in
  attn_lse <-- empty Empty_attn_lse [bs; num_kv_splits; nhead; 1] ;;
  _ <-- emit (mla_prefill_asm_fwd (p_max_seqlen_q a) sm_scale logits attn_lse) ;;
  ret (view o [bs; nhead; v_head_dim], attn_lse).


(** ** The runs of [mla_decode_fwd], case by case *)

Definition decode_scale (a : decode_args) : py scale :=
  match d_sm_scale a with
  | None => default_scale (d_qk_head_dim a)
  | Some s => Return (Scale s)
  end.

Definition decode_meta (cu_num : Z) (a : decode_args) : py (Z * Z) :=
  get_meta_param cu_num (d_num_kv_splits a) (d_bs a) (d_kv_indices_shape0 a)
    (d_nhead a) (d_max_seqlen_q a).

Definition scratch_logits (a : decode_args) (n : Z) : tensor :=
  {| storage_of := Empty_logits;
     shape := [d_total_s a; n; d_nhead a; d_v_head_dim a] |}.

Definition scratch_lse (a : decode_args) (n : Z) : tensor :=
  {| storage_of := Empty_attn_lse; shape := [d_total_s a; n; d_nhead a; 1] |}.

Definition log_config : call :=
  logging_basicConfig "/sgl-workspace/mla_decode_fwd.log".
Definition log_entry : call := logging_debug "MLA Decode Forward Parameters:".
Definition log_shape : call := logging_debug "nhead max_seqlen_q".

Inductive decode_outcome (cu_num : Z) (a : decode_args)
    : list call * py (tensor * tensor) -> Prop :=
| Out_logit_cap :
    (0 < d_logit_cap a)%Q ->
    decode_outcome cu_num a
      ([log_config; log_entry], Raise (AssertionError_logit_cap (d_logit_cap a)))
| Out_raise (e : exception) :
    (d_logit_cap a <= 0)%Q ->
    decode_scale a = Raise e \/
    ((exists sc, decode_scale a = Return sc) /\ decode_meta cu_num a = Raise e) ->
    decode_outcome cu_num a ([log_config; log_entry], Raise e)
| Out_direct (sc : scale) (mgc : Z) :
    (d_logit_cap a <= 0)%Q ->
    decode_scale a = Return sc ->
    decode_meta cu_num a = Return (1, mgc) ->
    ~ (d_max_seqlen_q a = 1 /\ d_nhead a = 16) ->
    decode_outcome cu_num a
      ([log_config; log_entry; log_shape;
        torch_empty (scratch_lse a 1);
        mla_decode_stage1_asm_fwd (d_max_seqlen_q a) sc
          (view (caller_o a) [d_total_s a; 1; d_nhead a; d_v_head_dim a])
          (scratch_lse a 1)],
       Return (view (caller_o a) [d_total_s a; d_nhead a; d_v_head_dim a],
               scratch_lse a 1))
| Out_stage2 (sc : scale) (n mgc : Z) :
    (d_logit_cap a <= 0)%Q ->
    decode_scale a = Return sc ->
    decode_meta cu_num a = Return (n, mgc) ->
    n <> 1 \/ (d_max_seqlen_q a = 1 /\ d_nhead a = 16) ->
    decode_outcome cu_num a
      ([log_config; log_entry; log_shape;
        torch_empty (scratch_logits a n);
        torch_empty (scratch_lse a n);
        mla_decode_stage1_asm_fwd (d_max_seqlen_q a) sc
          (scratch_logits a n) (scratch_lse a n);
        launch_stage2 (d_bs a, d_nhead a, d_max_seqlen_q a)
          (scratch_logits a n) (scratch_lse a n) (caller_o a)
          (launch_consts a (scratch_lse a n) n
             (next_power_of_2 (d_v_head_dim a)) (d_v_head_dim a) mgc)],
       Return (scratch_logits a n, scratch_lse a n)).

(** ** Softmax attention over a range of KV positions *)

Definition rsum (f : Z -> R) (lo hi : Z) : R :=
  fold_right Rplus 0%R (map f (py_range lo hi)).

(** Modelled from the spec: the stage-1 kernel
    [mla_decode_stage1_asm_fwd] and the reference attention of the tests,
    which are not part of the sources.  For one query token and head,
    [l j] is the scaled logit against KV position [j] and [v j d] is lane
    [d] of the value at [j].  Over the positions [lo <= j < hi] the
    log-sum-exp is [ln (sum_j exp (l j))] and the attention output is the
    softmax-weighted sum of the values. *)
Definition log_sum_exp (l : Z -> R) (lo hi : Z) : R :=
  ln (rsum (fun j => exp (l j)) lo hi).

Definition softmax_attention (l : Z -> R) (v : Z -> Z -> R) (d lo hi : Z)
    : R :=
  rsum (fun j => exp (l j) / rsum (fun i => exp (l i)) lo hi * v j d)%R lo hi.

(** Modelled from the spec: what stage 1 leaves in [Mid_O] and [Mid_lse]
    for the query row [q] and head [h] of a sequence of [len] KV
    positions; every non-empty split holds the attention output and the
    log-sum-exp of its own range of positions. *)
Definition stage1_contract (c : stage2_consts) (Mid_O Mid_lse : Z -> xreal)
    (len q h : Z) (l : Z -> R) (v : Z -> Z -> R) : Prop :=
  forall s, 0 <= s < NUM_KV_SPLITS c ->
    split_kv_start c len s < split_kv_end c len s ->
    Mid_lse (ptr_logic c (offs_logic c q h) s)
    = Fin (log_sum_exp l (split_kv_start c len s) (split_kv_end c len s)) /\
    forall d, 0 <= d < Lv c ->
      Mid_O ((q * stride_mid_ob c + h * stride_mid_oh c) * Lv c + d
             + s * stride_mid_os c * Lv c)
      = Fin (softmax_attention l v d
               (split_kv_start c len s) (split_kv_end c len s)).

(** The loop state once the splits over the positions [0 <= j < hi] have
    been merged: [e_sum] and [acc] are the normaliser and the weighted sum
    of the values over these positions, both scaled by [exp (- e_max)]. *)
Definition merged (c : stage2_consts) (l : Z -> R) (v : Z -> Z -> R)
    (hi : Z) (st : loop_state xreal) : Prop :=
  exists (S : R) (A : Z -> R),
    e_sum st = Fin S /\
    acc st = map (fun d => Fin (A d)) (offs_d c) /\
    ((hi = 0 /\ e_max st = NInf /\ S = 0%R /\ forall d, A d = 0%R) \/
     (0 < hi /\
      exists m : R,
        e_max st = Fin m /\
        (S * exp m = rsum (fun j => exp (l j)) 0 hi)%R /\
        forall d, 0 <= d < Lv c ->
          (A d * exp m = rsum (fun j => exp (l j) * v j d) 0 hi)%R)).

(** Lane [d] of the output row that the program instance [(b, h, o)]
    stores. *)
Definition stage2_output {F : Type} {ops : FloatOps F} (c : stage2_consts)
    (qo_indptr kv_indptr : Z -> Z) (Mid_O Mid_lse : Z -> F) (b h o : Z)
    (O : Z -> F) (d : Z) : F :=
  O_out (_fwd_kernel_stage2_asm c qo_indptr kv_indptr Mid_O Mid_lse
           (b, h, o) O)
    ((qo_indptr b + o) * stride_obs c + h * stride_oh c + d).

(** On the direct path [logits] is a view of [o] with one split: row [q],
    head [h], lane [d] of the output is the entry of the partial results
    at [(q, 0, h, d)]. *)
Definition direct_output {F : Type} (c : stage2_consts) (Mid_O : Z -> F)
    (q h d : Z) : F :=
  Mid_O ((q * stride_mid_ob c + h * stride_mid_oh c) * Lv c + d).

(** An output value is defined when it is not NaN. *)
Definition defined_value (x : xreal) : Prop := x <> NaN.

(** A launch with one split, one head and one lane, for a batch of one
    request with one query token and no KV entries. *)
Definition unit_consts : stage2_consts :=
  {| stride_mid_ob := 1; stride_mid_oh := 1; stride_mid_os := 1;
     stride_obs := 1; stride_oh := 1;
     bs := 1; nheads := 1; max_seqlen_q := 1;
     NUM_KV_SPLITS := 1; BLOCK_DV := 1; Lv := 1; mgc := 16 |}.

(** The same launch with two splits of one KV position each. *)
Definition two_split_consts : stage2_consts :=
  {| stride_mid_ob := 2; stride_mid_oh := 1; stride_mid_os := 1;
     stride_obs := 1; stride_oh := 1;
     bs := 1; nheads := 1; max_seqlen_q := 1;
     NUM_KV_SPLITS := 2; BLOCK_DV := 1; Lv := 1; mgc := 1 |}.

Definition two_kv : Z -> Z := fun b => 2 * b.      (* kv_indptr = [0, 2] *)

Definition one_query : Z -> Z := fun b => b.       (* qo_indptr = [0, 1] *)
Definition no_kv : Z -> Z := fun _ => 0.           (* kv_indptr = [0, 0] *)
Definition one_kv : Z -> Z := fun b => b.          (* kv_indptr = [0, 1] *)



(** Sample calls. *)
Definition decode_call (nhead max_seqlen_q : Z) (num_kv_splits : option Z)
    (logit_cap : Q) : decode_args :=
  {| d_kv_buffer_shape := (341, 1, 1, 576);
     d_o_shape := (3, nhead, 512);
     d_o_stride := (nhead * 512, 512);
     d_qo_indptr_shape0 := 4;
     d_kv_indices_shape0 := 341;
     d_max_seqlen_q := max_seqlen_q;
     d_sm_scale := None;
     d_logit_cap := logit_cap;
     d_num_kv_splits := num_kv_splits |}.

Definition prefill_call (sm_scale : option Q) (logit_cap : Q) : prefill_args :=
  {| p_kv_buffer_shape := (341, 1, 1, 576);
     p_o_shape := (3, 16, 512);
     p_max_seqlen_q := 128;
     p_sm_scale := sm_scale;
     p_logit_cap := logit_cap |}.

(** ** Access pattern and layout *)

(** The loads of iteration [s] of the loop, for the query row [q] and the
    head [h] of a sequence of [len] KV positions. *)
Definition split_loads (c : stage2_consts) (len q h s : Z) : list access :=
  if split_kv_end c len s >? split_kv_start c len s
  then [Load B_Mid_O (active (ptrs_v c (offs_v c q h) s) (mask_d c));
        Load B_Mid_lse [ptr_logic c (offs_logic c q h) s]]
  else [].

(** Row-major offset of the entry [(q, s, h, d)] of a contiguous tensor of
    shape [(_, ns, nh, dv)]. *)
Definition flat_index (ns nh dv q s h d : Z) : Z :=
  ((q * ns + s) * nh + h) * dv + d.

(** [torch.cumsum] of a tensor filled with [n], behind a leading zero:
    the offsets [qo_indptr] and [kv_indptr] that [test_mla] builds when
    [varlen] is off. *)
Definition cumsum_fill (n : Z) : Z -> Z := fun b => n * b.

(** * Properties *)

Example get_meta_param_ex1 :
  get_meta_param 80 None 1 21 16 1 = Return (16, 64).
Proof. vm_compute. reflexivity. Qed.

Example get_meta_param_ex2 :
  get_meta_param 80 None 48 98304 128 1 = Return (5, 16).
Proof. vm_compute. reflexivity. Qed.

(** ** The split-count heuristic *)

Lemma Qlt_bool_iff (a b : Q) : Qlt_bool a b = true <-> (a < b)%Q.
Proof.
  unfold Qlt_bool. rewrite negb_true_iff.
  split; intro Hab.
  - apply Qnot_le_lt. intro Hle. apply Qle_bool_iff in Hle. congruence.
  - destruct (Qle_bool b a) eqn:E; [|reflexivity].
    apply Qle_bool_iff in E. exfalso. exact (Qlt_not_le _ _ Hab E).
Qed.

Lemma Qlt_bool_false (a b : Q) : Qlt_bool a b = false <-> (b <= a)%Q.
Proof.
  unfold Qlt_bool. rewrite negb_false_iff. apply Qle_bool_iff.
Qed.

Lemma hd_sorted_desc (l : list (Q * Z)) :
  hd_error (sorted_desc l) = first_max l.
Proof.
  induction l as [|x l IH]; [reflexivity|].
  simpl. rewrite <- IH.
  destruct (sorted_desc l) as [|y s]; simpl; [reflexivity|].
  destruct (Qlt_bool (fst x) (fst y)); reflexivity.
Qed.

(** On candidates listed in increasing order, [first_max] is the least
    candidate of greatest score. *)
Lemma first_max_spec (g : Z -> Q) (cands : list Z) :
  StronglySorted Z.lt cands ->
  forall k i, first_max (map (fun j => (g j, j)) cands) = Some (k, i) ->
  k = g i /\ In i cands /\
  forall j, In j cands -> (g j <= g i)%Q /\ (j < i -> (g j < g i)%Q).
Proof.
  induction 1 as [|x l Hs IH Hx]; intros k i Hm; [discriminate|].
  simpl in Hm.
  destruct (first_max (map (fun j => (g j, j)) l)) as [[kb b]|] eqn:E.
  - destruct (IH kb b eq_refl) as (-> & Hb & Hall).
    simpl in Hm.
    destruct (Qlt_bool (g x) (g b)) eqn:Hlt; inversion Hm; subst; clear Hm.
    + apply Qlt_bool_iff in Hlt.
      split; [reflexivity|]. split; [right; exact Hb|].
      intros j [<-|Hj].
      * split; [apply Qlt_le_weak; exact Hlt | intros _; exact Hlt].
      * apply Hall; exact Hj.
    + apply Qlt_bool_false in Hlt.
      split; [reflexivity|]. split; [left; reflexivity|].
      intros j [<-|Hj].
      * split; [apply Qle_refl | lia].
      * split.
        -- apply Qle_trans with (g b); [apply Hall; exact Hj | exact Hlt].
        -- rewrite Forall_forall in Hx. specialize (Hx j Hj). lia.
  - inversion Hm; subst; clear Hm.
    destruct l as [|y l]; [|simpl in E; destruct (first_max _) as [?|];
                             [destruct (Qlt_bool _ _)|]; discriminate].
    split; [reflexivity|]. split; [left; reflexivity|].
    intros j [<-|[]]. split; [apply Qle_refl | lia].
Qed.

Lemma py_mapM_pure {A B : Type} (f : A -> py B) (g : A -> B) (l : list A) :
  (forall x, In x l -> f x = Return (g x)) ->
  py_mapM f l = Return (map g l).
Proof.
  induction l as [|x l IH]; intros Hf; [reflexivity|].
  simpl. rewrite (Hf x (or_introl eq_refl)). simpl.
  rewrite IH by (intros y Hy; apply Hf; right; exact Hy). reflexivity.
Qed.

Lemma candidates_1_16 :
  py_range 1 17 = [1; 2; 3; 4; 5; 6; 7; 8; 9; 10; 11; 12; 13; 14; 15; 16].
Proof. reflexivity. Qed.

Lemma candidates_sorted : StronglySorted Z.lt (py_range 1 17).
Proof.
  rewrite candidates_1_16.
  repeat (constructor; [|repeat (constructor; try lia)]).
  constructor.
Qed.

Lemma In_candidates (j : Z) : In j (py_range 1 17) <-> 1 <= j <= 16.
Proof.
  rewrite candidates_1_16. simpl. lia.
Qed.

Lemma py_truediv_ok (a b : Q) :
  ~ (b == 0)%Q -> py_truediv a b = Return (a / b)%Q.
Proof.
  intros Hb. unfold py_truediv.
  destruct (Qeq_bool b 0) eqn:E; [|reflexivity].
  apply Qeq_bool_iff in E. contradiction.
Qed.

Lemma inject_Z_nonzero (z : Z) : z <> 0 -> ~ (inject_Z z == 0)%Q.
Proof.
  intros Hz Heq. unfold Qeq, inject_Z in Heq. simpl in Heq. lia.
Qed.

Lemma ceil_multiple_pos (cu_num x : Z) :
  0 < cu_num -> 0 < x -> 0 < ceil_to_compute_unit_multiple cu_num x.
Proof.
  intros Hc Hx. unfold ceil_to_compute_unit_multiple.
  assert (1 <= (x + cu_num - 1) / cu_num).
  { apply Z.div_le_lower_bound; lia. }
  nia.
Qed.

Lemma score_denominator_pos (bs total_kv i : Z) :
  0 < bs -> 0 <= total_kv -> 0 < i ->
  (0 < inject_Z total_kv / inject_Z bs + overhead * inject_Z i)%Q.
Proof.
  intros Hb Hk Hi.
  assert (H1 : (0 <= inject_Z total_kv / inject_Z bs)%Q).
  { apply Qle_shift_div_l.
    - change 0%Q with (inject_Z 0). rewrite <- Zlt_Qlt. exact Hb.
    - rewrite Qmult_0_l. change 0%Q with (inject_Z 0).
      rewrite <- Zle_Qle. exact Hk. }
  assert (H2 : (0 < overhead * inject_Z i)%Q).
  { apply Qmult_lt_0_compat; [reflexivity|].
    change 0%Q with (inject_Z 0). rewrite <- Zlt_Qlt. exact Hi. }
  apply Qlt_le_trans with (0 + overhead * inject_Z i)%Q.
  - rewrite Qplus_0_l. exact H2.
  - apply Qplus_le_l. exact H1.
Qed.

Lemma score_entry_spec (cu_num bs total_kv i : Z) :
  0 < cu_num -> 0 < bs -> 0 <= total_kv -> 0 < i ->
  score_entry cu_num bs (inject_Z total_kv / inject_Z bs)%Q i
  = Return (spec_score cu_num bs total_kv i, i).
Proof.
  intros Hc Hb Hk Hi. unfold score_entry, py_floordiv.
  replace (cu_num =? 0) with false by (symmetry; apply Z.eqb_neq; lia).
  simpl.
  assert (Hm := ceil_multiple_pos cu_num (bs * i) Hc ltac:(nia)).
  unfold ceil_to_compute_unit_multiple in Hm.
  rewrite py_truediv_ok by (apply inject_Z_nonzero; lia).
  simpl.
  rewrite py_truediv_ok.
  - reflexivity.
  - intro Heq. pose proof (score_denominator_pos bs total_kv i Hb Hk Hi) as Hp.
    rewrite Heq in Hp. exact (Qlt_irrefl _ Hp).
Qed.

Lemma heuristic_splits_spec (cu_num bs total_kv : Z) :
  0 < cu_num -> 0 < bs -> 0 <= total_kv ->
  exists i,
    heuristic_splits cu_num bs total_kv = Return i /\
    1 <= i <= 16 /\
    forall j, 1 <= j <= 16 ->
      (spec_score cu_num bs total_kv j <= spec_score cu_num bs total_kv i)%Q /\
      (j < i ->
       (spec_score cu_num bs total_kv j < spec_score cu_num bs total_kv i)%Q).
Proof.
  intros Hc Hb Hk. unfold heuristic_splits.
  rewrite py_truediv_ok by (apply inject_Z_nonzero; lia).
  cbn [py_bind].
  rewrite (py_mapM_pure _ (fun j => (spec_score cu_num bs total_kv j, j))).
  2:{ intros x Hx. apply In_candidates in Hx.
      apply score_entry_spec; lia. }
  cbn [py_bind].
  pose proof (hd_sorted_desc
    (map (fun j => (spec_score cu_num bs total_kv j, j)) (py_range 1 17)))
    as Hhd.
  destruct (sorted_desc _) as [|[k i] s] eqn:Es.
  - rewrite candidates_1_16 in Hhd. simpl in Hhd.
    repeat (destruct (Qlt_bool _ _) in Hhd); discriminate.
  - simpl in Hhd. symmetry in Hhd.
    destruct (first_max_spec _ _ candidates_sorted k i Hhd) as (_ & Hin & Hall).
    exists i. split; [reflexivity|].
    split; [apply In_candidates; exact Hin|].
    intros j Hj. apply Hall. apply In_candidates. exact Hj.
Qed.





(** ** Exceptions of [get_meta_param] *)

Lemma py_mapM_raises {A B : Type} (f : A -> py B) (l : list A) (e : exception) :
  py_mapM f l = Raise e -> exists x, In x l /\ f x = Raise e.
Proof.
  induction l as [|x l IH]; simpl; [discriminate|].
  destruct (f x) as [y|e'] eqn:Ex; simpl.
  - destruct (py_mapM f l) as [ys|e'']; simpl; [discriminate|].
    intros [= ->]. destruct (IH eq_refl) as (x' & Hin & Hx').
    exists x'. split; [right; exact Hin | exact Hx'].
  - intros [= ->]. exists x. split; [left; reflexivity | exact Ex].
Qed.

Lemma py_truediv_raises (a b : Q) (e : exception) :
  py_truediv a b = Raise e -> e = ZeroDivisionError.
Proof. unfold py_truediv. destruct (Qeq_bool b 0); congruence. Qed.

Lemma score_entry_raises (cu_num bs : Z) (avg_kv : Q) (i : Z) (e : exception) :
  score_entry cu_num bs avg_kv i = Raise e -> e = ZeroDivisionError.
Proof.
  unfold score_entry, py_floordiv.
  destruct (cu_num =? 0); cbn [py_bind]; [congruence|].
  destruct (py_truediv _ _) eqn:E1; cbn [py_bind].
  - destruct (py_truediv (_ * _) _) eqn:E2; cbn [py_bind]; [discriminate|].
    intros [= <-]. exact (py_truediv_raises _ _ _ E2).
  - intros [= <-]. exact (py_truediv_raises _ _ _ E1).
Qed.



Lemma get_meta_param_returns (cu_num : Z) (r : option Z)
    (bs total_kv nhead max_seqlen_q n mgc : Z) :
  get_meta_param cu_num r bs total_kv nhead max_seqlen_q = Return (n, mgc) ->
  (nhead = 16 \/ nhead = 128) /\
  resolve_num_kv_splits cu_num r bs total_kv = Return n /\
  mgc = (if (max_seqlen_q =? 1) && (nhead =? 16) then 64 else 16).
Proof.
  unfold get_meta_param.
  destruct (resolve_num_kv_splits _ _ _ _) as [n'|e1]; cbn [py_bind];
    [|discriminate].
  cbn. destruct (nhead =? 16) eqn:H16.
  - apply Z.eqb_eq in H16. intros [= <- <-]. rewrite andb_true_r. tauto.
  - destruct (nhead =? 128) eqn:H128; [|discriminate].
    apply Z.eqb_eq in H128. intros [= <- <-]. rewrite andb_false_r. tauto.
Qed.

(** ** The runs of the entry points *)

Ltac run_monad :=
  cbv beta iota zeta delta
    [run bindM emit py_assert ret raise lift empty view caller_o read_local
     d_kv_buffer_shape d_o_shape d_o_stride d_qo_indptr_shape0
     d_kv_indices_shape0 d_max_seqlen_q d_sm_scale d_logit_cap
     d_num_kv_splits d_qk_head_dim d_total_s d_nhead d_v_head_dim d_bs
     decode_scale decode_meta scratch_logits scratch_lse log_config log_entry
     log_shape
     launch_consts app fst snd].

Lemma Qle_bool_false_lt (x : Q) : Qle_bool x 0 = false -> (0 < x)%Q.
Proof.
  intros H. apply Qlt_bool_iff. unfold Qlt_bool. rewrite H. reflexivity.
Qed.

Lemma decode_outcomes (cu_num : Z) (a : decode_args) :
  decode_outcome cu_num a (run (mla_decode_fwd cu_num a)).
Proof.
  destruct (Qle_bool (d_logit_cap a) 0) eqn:Hcap.
  2:{ replace (run (mla_decode_fwd cu_num a))
        with ([log_config; log_entry],
              @Raise (tensor * tensor)
                (AssertionError_logit_cap (d_logit_cap a))).
      - apply Out_logit_cap. apply Qle_bool_false_lt. exact Hcap.
      - unfold mla_decode_fwd. run_monad.
        destruct a; cbn in Hcap |- *. rewrite Hcap. reflexivity. }
  pose proof Hcap as Hle. apply Qle_bool_iff in Hle.
  destruct (decode_scale a) as [sc|e] eqn:Hsc.
  2:{ replace (run (mla_decode_fwd cu_num a))
        with ([log_config; log_entry], @Raise (tensor * tensor) e).
      - apply Out_raise; [exact Hle | left; exact Hsc].
      - revert Hsc Hcap. unfold mla_decode_fwd. run_monad.
        destruct a as [[[[np ps] nkv] qk] [[ts nh] v] so ql kl msq s cap sp].
        cbn. intros Hsc ->. destruct s; [discriminate|].
        rewrite Hsc. reflexivity. }
  destruct (decode_meta cu_num a) as [[n mgc]|e] eqn:Hm.
  2:{ replace (run (mla_decode_fwd cu_num a))
        with ([log_config; log_entry], @Raise (tensor * tensor) e).
      - apply Out_raise; [exact Hle | right; split; [eauto | exact Hm]].
      - revert Hsc Hm Hcap. unfold mla_decode_fwd. run_monad.
        destruct a as [[[[np ps] nkv] qk] [[ts nh] v] so ql kl msq s cap sp].
        cbn. intros Hsc Hm ->.
        destruct s; [|rewrite Hsc]; rewrite Hm; reflexivity. }
  destruct (get_meta_param_returns _ _ _ _ _ _ _ _ Hm) as (Hnh & _ & _).
  destruct ((n =? 1) && negb ((d_max_seqlen_q a =? 1) && (d_nhead a =? 16)))
    eqn:Hdirect.
  - apply andb_true_iff in Hdirect. destruct Hdirect as [Hn Hsp].
    apply Z.eqb_eq in Hn. subst n.
    apply negb_true_iff in Hsp.
    assert (Hns : ~ (d_max_seqlen_q a = 1 /\ d_nhead a = 16)).
    { intros [H1 H2]. rewrite H1, H2 in Hsp. discriminate. }
    pose proof (Out_direct cu_num a sc mgc Hle Hsc Hm Hns) as Hout.
    revert Hsc Hm Hcap Hnh Hsp Hout. unfold mla_decode_fwd. run_monad.
    destruct a as [[[[np ps] nkv] qk] [[ts nh] v] so ql kl msq s cap sp].
    cbn. intros Hsc Hm -> Hnh Hsp Hout.
    destruct s as [s0|]; [injection Hsc as <- | rewrite Hsc];
      rewrite Hm, (andb_comm (nh =? 16)), Hsp;
      destruct Hnh as [-> | ->]; exact Hout.
  - assert (Hns : n <> 1 \/ (d_max_seqlen_q a = 1 /\ d_nhead a = 16)).
    { apply andb_false_iff in Hdirect. destruct Hdirect as [Hn | Hsp].
      - left. apply Z.eqb_neq. exact Hn.
      - right. apply negb_false_iff, andb_true_iff in Hsp.
        destruct Hsp as [H1 H2]. apply Z.eqb_eq in H1, H2. tauto. }
    pose proof (Out_stage2 cu_num a sc n mgc Hle Hsc Hm Hns) as Hout.
    revert Hsc Hm Hcap Hnh Hdirect Hout. unfold mla_decode_fwd. run_monad.
    destruct a as [[[[np ps] nkv] qk] [[ts nh] v] so ql kl msq s cap sp].
    cbn. intros Hsc Hm -> Hnh Hdirect Hout.
    destruct s as [s0|]; [injection Hsc as <- | rewrite Hsc];
      rewrite Hm, Hdirect;
      (destruct Hnh as [-> | ->]; cbn in Hdirect |- *;
       [ destruct (msq =? 1) eqn:E1; cbn in Hdirect |- *; [exact Hout|];
         rewrite andb_true_r in Hdirect; rewrite Hdirect; exact Hout
       | rewrite andb_false_r, andb_true_r in Hdirect; rewrite Hdirect;
         exact Hout ]).
Qed.



Lemma prefill_logit_cap (p : prefill_args) :
  (0 < p_logit_cap p)%Q ->
  run (mla_prefill_fwd p)
  = ([], Raise (AssertionError_logit_cap (p_logit_cap p))).
Proof.
  intros Hc. apply Qlt_bool_iff in Hc. unfold Qlt_bool in Hc.
  apply negb_true_iff in Hc.
  unfold mla_prefill_fwd. run_monad. rewrite Hc. reflexivity.
Qed.

Lemma prefill_no_scale (p : prefill_args) :
  (p_logit_cap p <= 0)%Q -> p_sm_scale p = None ->
  run (mla_prefill_fwd p) = ([], Raise (UnboundLocalError "qk_head_dim")).
Proof.
  intros Hc Hs. apply Qle_bool_iff in Hc.
  unfold mla_prefill_fwd. run_monad. rewrite Hc, Hs. reflexivity.
Qed.

Lemma prefill_with_scale (p : prefill_args) (s : Q) :
  (p_logit_cap p <= 0)%Q -> p_sm_scale p = Some s ->
  exists w r, run (mla_prefill_fwd p) = (w, Return r).
Proof.
  intros Hc Hs. apply Qle_bool_iff in Hc.
  unfold mla_prefill_fwd. run_monad. rewrite Hc, Hs.
  destruct (p_kv_buffer_shape p) as [[[np ps] nkv] qk].
  destruct (p_o_shape p) as [[b nh] v].
  eexists. eexists. reflexivity.
Qed.




(** C10, as stated, fails: a call that omits [sm_scale] and asks for a
    positive [logit_cap] stops at the [logit_cap] assertion, not at a
    name-resolution error. *)
Lemma C10_counterexample :
  p_sm_scale (prefill_call None 1) = None /\
  run (mla_prefill_fwd (prefill_call None 1))
  = ([], Raise (AssertionError_logit_cap 1)) /\
  ~ (exists name,
       snd (run (mla_prefill_fwd (prefill_call None 1)))
       = Raise (UnboundLocalError name)).
Proof.
  split; [reflexivity|]. split; [reflexivity|].
  intros [name H]. discriminate H.
Qed.

(** C10, amended.  Every call of [mla_prefill_fwd] with [logit_cap <= 0]
    that omits [sm_scale] raises the name-resolution error for
    [qk_head_dim], with nothing allocated and no kernel invoked; so a call
    that returns was given an explicit [sm_scale]. *)
Theorem C10_prefill_default_scale_unbound (p : prefill_args) :
  ((p_logit_cap p <= 0)%Q -> p_sm_scale p = None ->
   run (mla_prefill_fwd p) = ([], Raise (UnboundLocalError "qk_head_dim"))) /\
  (forall w r, run (mla_prefill_fwd p) = (w, Return r) ->
               exists s, p_sm_scale p = Some s).
Proof.
  split; [apply prefill_no_scale|].
  intros w r Hrun.
  destruct (p_sm_scale p) as [s|] eqn:Hs; [eauto|].
  destruct (Qlt_le_dec 0 (p_logit_cap p)) as [Hlt | Hle].
  - rewrite (prefill_logit_cap p Hlt) in Hrun. discriminate.
  - rewrite (prefill_no_scale p Hle Hs) in Hrun. discriminate.
Qed.

Lemma C10_prefill_default_scale_unbound_witness :
  run (mla_prefill_fwd (prefill_call None 0))
  = ([], Raise (UnboundLocalError "qk_head_dim")) /\
  exists s, p_sm_scale (prefill_call (Some (1 # 24)) 0) = Some s.
Proof.
  split.
  - apply (proj1 (C10_prefill_default_scale_unbound (prefill_call None 0)));
      [discriminate | reflexivity].
  - apply (proj2 (C10_prefill_default_scale_unbound
                    (prefill_call (Some (1 # 24)) 0))
             (fst (run (mla_prefill_fwd (prefill_call (Some (1 # 24)) 0))))
             ({| storage_of := Caller_o; shape := [3; 16; 512] |},
              {| storage_of := Empty_attn_lse; shape := [3; 1; 16; 1] |})).
    reflexivity.
Defined.

(** ** Ranges, lanes and masked accesses *)

Lemma py_range_length (lo hi : Z) :
  List.length (py_range lo hi) = Z.to_nat (hi - lo).
Proof. unfold py_range. rewrite length_map, length_seq. reflexivity. Qed.

Lemma In_py_range (lo hi x : Z) : In x (py_range lo hi) <-> lo <= x < hi.
Proof.
  unfold py_range. rewrite in_map_iff. split.
  - intros (k & <- & Hk). apply in_seq in Hk. lia.
  - intros Hx. exists (Z.to_nat (x - lo)). split; [lia|].
    apply in_seq. lia.
Qed.

Lemma NoDup_py_range (lo hi : Z) : NoDup (py_range lo hi).
Proof.
  unfold py_range. apply Injective_map_NoDup.
  - intros x y Hxy. lia.
  - apply seq_NoDup.
Qed.

Lemma map_seq_shift {B : Type} (f : nat -> B) (a n : nat) :
  map f (seq a n) = map (fun k => f (a + k)%nat) (seq 0 n).
Proof.
  revert a f. induction n as [|n IH]; intros a f; [reflexivity|].
  simpl. f_equal; [f_equal; lia|].
  rewrite (IH (S a) f), (IH 1%nat (fun k => f (a + k)%nat)).
  apply map_ext. intros k. f_equal. lia.
Qed.

Lemma py_range_app (lo mid hi : Z) :
  lo <= mid <= hi -> py_range lo hi = py_range lo mid ++ py_range mid hi.
Proof.
  intros H. unfold py_range.
  replace (Z.to_nat (hi - lo))
    with (Z.to_nat (mid - lo) + Z.to_nat (hi - mid))%nat by lia.
  rewrite seq_app, map_app. f_equal.
  rewrite Nat.add_0_l, map_seq_shift.
  apply map_ext. intros k. lia.
Qed.

Lemma py_range_empty (lo hi : Z) : hi <= lo -> py_range lo hi = [].
Proof.
  intros H. unfold py_range.
  replace (Z.to_nat (hi - lo)) with 0%nat by lia. reflexivity.
Qed.

Lemma py_range_cons (lo hi : Z) :
  lo < hi -> py_range lo hi = lo :: py_range (lo + 1) hi.
Proof.
  intros H. rewrite (py_range_app lo (lo + 1) hi) by lia.
  unfold py_range at 1. replace (Z.to_nat (lo + 1 - lo)) with 1%nat by lia.
  simpl. f_equal. lia.
Qed.

Lemma py_range_snoc (lo hi : Z) :
  lo <= hi -> py_range lo (hi + 1) = py_range lo hi ++ [hi].
Proof.
  intros H. rewrite (py_range_app lo hi (hi + 1)) by lia.
  f_equal. rewrite py_range_cons by lia.
  rewrite py_range_empty by lia. reflexivity.
Qed.

Lemma combine_map {A B C : Type} (f : A -> B) (g : A -> C) (l : list A) :
  combine (map f l) (map g l) = map (fun x => (f x, g x)) l.
Proof. induction l as [|x l IH]; simpl; [|rewrite IH]; reflexivity. Qed.

Lemma map2_map {A B C D : Type} (f : B -> C -> D) (g : A -> B) (h : A -> C)
    (l : list A) :
  map2 f (map g l) (map h l) = map (fun x => f (g x) (h x)) l.
Proof. induction l as [|x l IH]; simpl; [|rewrite IH]; reflexivity. Qed.

Lemma tl_load_masked_map {A X : Type} (m : Z -> A) (p : X -> Z)
    (b : X -> bool) (other : A) (l : list X) :
  tl_load_masked m (map p l) (map b l) other
  = map (fun x => if b x then m (p x) else other) l.
Proof.
  unfold tl_load_masked. rewrite combine_map, map_map. reflexivity.
Qed.

Lemma active_map {X : Type} (p : X -> Z) (b : X -> bool) (l : list X) :
  active (map p l) (map b l) = map p (filter b l).
Proof.
  unfold active. rewrite combine_map.
  induction l as [|x l IH]; simpl; [reflexivity|].
  destruct (b x); simpl; rewrite IH; reflexivity.
Qed.

Lemma tl_store_masked_map {A X : Type} (p : X -> Z) (v : X -> A)
    (b : X -> bool) (l : list X) (m : Z -> A) :
  tl_store_masked m (map p l) (map v l) (map b l)
  = fold_left (fun m' x => if b x then upd m' (p x) (v x) else m') l m.
Proof.
  unfold tl_store_masked. rewrite !combine_map.
  revert m. induction l as [|x l IH]; intros m; simpl; [reflexivity|].
  apply IH.
Qed.

Lemma store_untouched {A X : Type} (p : X -> Z) (v : X -> A) (b : X -> bool)
    (l : list X) (m : Z -> A) (a : Z) :
  (forall x, In x l -> b x = true -> p x <> a) ->
  fold_left (fun m' x => if b x then upd m' (p x) (v x) else m') l m a = m a.
Proof.
  revert m. induction l as [|x l IH]; intros m Hna; simpl; [reflexivity|].
  rewrite IH by (intros y Hy; apply Hna; right; exact Hy).
  destruct (b x) eqn:Hb; [|reflexivity].
  unfold upd. destruct (a =? p x) eqn:E; [|reflexivity].
  apply Z.eqb_eq in E. exfalso.
  apply (Hna x (or_introl eq_refl) Hb). congruence.
Qed.

Lemma store_lookup {A X : Type} (p : X -> Z) (v : X -> A) (b : X -> bool)
    (l : list X) (m : Z -> A) (x : X) :
  NoDup (map p l) -> In x l -> b x = true ->
  fold_left (fun m' y => if b y then upd m' (p y) (v y) else m') l m (p x)
  = v x.
Proof.
  revert m. induction l as [|y l IH]; intros m Hnd Hin Hb; [destruct Hin|].
  simpl in Hnd. inversion Hnd as [|? ? Hnotin Hnd']; subst.
  simpl. destruct Hin as [-> | Hin].
  - rewrite store_untouched.
    + rewrite Hb. unfold upd. rewrite Z.eqb_refl. reflexivity.
    + intros z Hz _ Heq. apply Hnotin. rewrite <- Heq.
      apply in_map. exact Hz.
  - apply IH; assumption.
Qed.

Lemma NoDup_lanes (base : Z) (l : list Z) :
  NoDup l -> NoDup (map (fun d => base + d) l).
Proof.
  intros H. apply Injective_map_NoDup; [|exact H].
  intros x y Hxy. lia.
Qed.

Lemma fold_left_py_range_snoc {S : Type} (f : S -> Z -> S) (n : Z) (s0 : S) :
  0 <= n ->
  fold_left f (py_range 0 (n + 1)) s0 = f (fold_left f (py_range 0 n) s0) n.
Proof.
  intros Hn. rewrite py_range_snoc by lia.
  rewrite fold_left_app. reflexivity.
Qed.

(** ** The stage-2 kernel, for every float arithmetic *)

Section Stage2Facts.
Context {F : Type} {ops : FloatOps F}.
Variable c : stage2_consts.
Variables qo_indptr kv_indptr : Z -> Z.
Variables Mid_O Mid_lse : Z -> F.

Lemma split_body_empty (len ol : Z) (ov : list Z) (mask : list bool)
    (st : loop_state F) (s : Z) :
  split_kv_end c len s <= split_kv_start c len s ->
  split_body c Mid_O Mid_lse len ol ov mask st s = st.
Proof.
  intros H. unfold split_body.
  replace (split_kv_end c len s >? split_kv_start c len s) with false;
    [reflexivity|].
  symmetry. rewrite Z.gtb_ltb. apply Z.ltb_ge. exact H.
Qed.

Lemma split_empty_of_nonpositive_len (len s : Z) :
  len <= 0 -> 0 <= s -> split_kv_end c len s <= split_kv_start c len s.
Proof.
  intros Hl Hs. unfold split_kv_end, split_kv_start.
  destruct (Z_le_gt_dec (kv_len_per_split c len) 0); nia.
Qed.

Lemma fold_left_fixed {S X : Type} (f : S -> X -> S) (l : list X) (st : S) :
  (forall x, In x l -> f st x = st) -> fold_left f l st = st.
Proof.
  induction l as [|x l IH]; intros Hf; simpl; [reflexivity|].
  rewrite (Hf x (or_introl eq_refl)).
  apply IH. intros y Hy. apply Hf. right. exact Hy.
Qed.

Lemma reduce_zero_length (b h q : Z) :
  kv_indptr (b + 1) - kv_indptr b <= 0 ->
  reduce c kv_indptr Mid_O Mid_lse b h q = init_state c b.
Proof.
  intros Hlen. unfold reduce. apply fold_left_fixed.
  intros s Hs. apply In_py_range in Hs.
  apply split_body_empty, split_empty_of_nonpositive_len; lia.
Qed.

Lemma kernel_out_of_range (b h o : Z) (O : Z -> F) :
  qo_indptr b + o > qo_indptr (b + 1) ->
  _fwd_kernel_stage2_asm c qo_indptr kv_indptr Mid_O Mid_lse (b, h, o) O
  = {| trace := guard_loads b; O_out := O |}.
Proof.
  intros H. unfold _fwd_kernel_stage2_asm.
  replace (qo_indptr b + o >? qo_indptr (b + 1)) with true; [reflexivity|].
  symmetry. apply Z.gtb_gt. exact H.
Qed.

Lemma kernel_in_range (b h o : Z) (O : Z -> F) :
  qo_indptr b + o <= qo_indptr (b + 1) ->
  let q := qo_indptr b + o in
  let st := reduce c kv_indptr Mid_O Mid_lse b h q in
  _fwd_kernel_stage2_asm c qo_indptr kv_indptr Mid_O Mid_lse (b, h, o) O
  = {| trace := log st ++ [Store B_O (active (ptrs_o c q h) (mask_d c))];
       O_out := tl_store_masked O (ptrs_o c q h)
                  (map (fun a => f_div a (e_sum st)) (acc st)) (mask_d c) |}.
Proof.
  intros H. unfold _fwd_kernel_stage2_asm.
  replace (qo_indptr b + o >? qo_indptr (b + 1)) with false; [reflexivity|].
  symmetry. rewrite Z.gtb_ltb. apply Z.ltb_ge. exact H.
Qed.

(** The value stored in lane [d] of the output row. *)
Lemma kernel_output_lane (b h o d : Z) (O : Z -> F) (phi : Z -> F) :
  qo_indptr b + o <= qo_indptr (b + 1) ->
  let q := qo_indptr b + o in
  let st := reduce c kv_indptr Mid_O Mid_lse b h q in
  acc st = map phi (offs_d c) ->
  0 <= d < BLOCK_DV c -> d < Lv c ->
  O_out (_fwd_kernel_stage2_asm c qo_indptr kv_indptr Mid_O Mid_lse
           (b, h, o) O)
    (q * stride_obs c + h * stride_oh c + d)
  = f_div (phi d) (e_sum st).
Proof.
  intros Hg q st Hacc Hd HLv.
  rewrite (kernel_in_range b h o O Hg). cbn [O_out].
  fold q. fold st. rewrite Hacc, map_map.
  unfold ptrs_o, mask_d.
  rewrite tl_store_masked_map.
  apply (store_lookup
           (fun d0 => q * stride_obs c + h * stride_oh c + d0)
           (fun d0 => f_div (phi d0) (e_sum st))
           (fun d0 => d0 <? Lv c)).
  - apply NoDup_lanes. apply NoDup_py_range.
  - apply In_py_range. lia.
  - apply Z.ltb_lt. exact HLv.
Qed.

(** Loads of the loop go to [Mid_O] and [Mid_lse] only, and the log only
    grows. *)
Lemma split_body_log (len ol : Z) (ov : list Z) (mask : list bool)
    (st : loop_state F) (s : Z) :
  log (split_body c Mid_O Mid_lse len ol ov mask st s) = log st \/
  exists a1 a2,
    log (split_body c Mid_O Mid_lse len ol ov mask st s)
    = log st ++ [Load B_Mid_O a1; Load B_Mid_lse a2].
Proof.
  unfold split_body. destruct (_ >? _); [right | left; reflexivity].
  eexists. eexists. reflexivity.
Qed.

Lemma loop_log_no_store (len ol : Z) (ov : list Z) (mask : list bool)
    (l : list Z) (st : loop_state F) :
  (forall b a, ~ In (Store b a) (log st)) ->
  forall b a,
    ~ In (Store b a)
        (log (fold_left (split_body c Mid_O Mid_lse len ol ov mask) l st)).
Proof.
  revert st. induction l as [|s l IH]; intros st Hst; [exact Hst|].
  simpl. apply IH. intros b a Hin.
  destruct (split_body_log len ol ov mask st s) as [E | (a1 & a2 & E)];
    rewrite E in Hin.
  - exact (Hst b a Hin).
  - apply in_app_or in Hin. destruct Hin as [Hin | Hin].
    + exact (Hst b a Hin).
    + simpl in Hin. destruct Hin as [H | [H | []]]; discriminate H.
Qed.

(** The kernel stores into [O] only: it writes no log-sum-exp. *)
Lemma kernel_stores_only_O (pid : Z * Z * Z) (O : Z -> F) (b : buffer)
    (a : list Z) :
  In (Store b a)
     (trace (_fwd_kernel_stage2_asm c qo_indptr kv_indptr Mid_O Mid_lse
               pid O)) ->
  b = B_O.
Proof.
  destruct pid as [[cb ch] co].
  destruct (Z_le_gt_dec (qo_indptr cb + co) (qo_indptr (cb + 1))) as [H | H].
  - rewrite (kernel_in_range cb ch co O H). cbn [trace].
    intros Hin. apply in_app_or in Hin. destruct Hin as [Hin | Hin].
    + exfalso. revert Hin. unfold reduce. apply loop_log_no_store.
      intros b' a' Hin. simpl in Hin.
      repeat (destruct Hin as [Hin | Hin]; [discriminate Hin|]).
      exact Hin.
    + simpl in Hin. destruct Hin as [Hin | []]. congruence.
  - rewrite (kernel_out_of_range cb ch co O H). cbn [trace].
    intros Hin. simpl in Hin.
    repeat (destruct Hin as [Hin | Hin]; [discriminate Hin|]).
    destruct Hin.
Qed.
End Stage2Facts.

Lemma tl_cdiv_ceil (x div : Z) :
  0 <= x -> 0 < div ->
  div * (tl_cdiv x div - 1) < x <= div * tl_cdiv x div.
Proof.
  intros Hx Hd. unfold tl_cdiv.
  rewrite Z.quot_div_nonneg by lia.
  pose proof (Z.div_mod (x + div - 1) div ltac:(lia)) as E.
  pose proof (Z.mod_pos_bound (x + div - 1) div Hd) as B.
  nia.
Qed.

(** C5. In the loop, with
    [kv_len_per_split = max(mgc, ceil(cur_kv_seq_len / NUM_KV_SPLITS))],
    [split_kv_start = kv_len_per_split * s] and
    [split_kv_end = min(split_kv_start + kv_len_per_split, cur_kv_seq_len)],
    an iteration with [split_kv_end <= split_kv_start] leaves [e_max],
    [e_sum] and [acc] as they are and loads nothing: the log of loads is
    unchanged and the state does not depend on what [Mid_O] and [Mid_lse]
    hold. *)
Theorem C5_empty_split_skipped {F : Type} {ops : FloatOps F}
    (c : stage2_consts) (Mid_O Mid_lse : Z -> F) (cur_kv_seq_len : Z)
    (offs_logic : Z) (offs_v : list Z) (mask : list bool)
    (st : loop_state F) (s : Z) :
  split_kv_end c cur_kv_seq_len s <= split_kv_start c cur_kv_seq_len s ->
  (kv_len_per_split c cur_kv_seq_len
   = Z.max (mgc c) (tl_cdiv cur_kv_seq_len (NUM_KV_SPLITS c)) /\
   (0 <= cur_kv_seq_len -> 0 < NUM_KV_SPLITS c ->
    NUM_KV_SPLITS c * (tl_cdiv cur_kv_seq_len (NUM_KV_SPLITS c) - 1)
    < cur_kv_seq_len
    <= NUM_KV_SPLITS c * tl_cdiv cur_kv_seq_len (NUM_KV_SPLITS c)) /\
   split_kv_start c cur_kv_seq_len s = kv_len_per_split c cur_kv_seq_len * s /\
   split_kv_end c cur_kv_seq_len s
   = Z.min (split_kv_start c cur_kv_seq_len s
            + kv_len_per_split c cur_kv_seq_len) cur_kv_seq_len) /\
  let st' := split_body c Mid_O Mid_lse cur_kv_seq_len offs_logic offs_v
               mask st s in
  e_max st' = e_max st /\ e_sum st' = e_sum st /\ acc st' = acc st /\
  log st' = log st /\
  forall Mid_O' Mid_lse' : Z -> F,
    split_body c Mid_O' Mid_lse' cur_kv_seq_len offs_logic offs_v mask st s
    = st'.
Proof.
  intros Hempty. split.
  - split; [reflexivity|]. split; [apply tl_cdiv_ceil|].
    split; reflexivity.
  - cbv zeta. rewrite (split_body_empty c Mid_O Mid_lse _ _ _ _ _ _ Hempty).
    repeat split; try reflexivity.
    intros MO ML. apply split_body_empty. exact Hempty.
Qed.

Lemma C5_empty_split_skipped_witness :
  let st := {| e_sum := Fin 1; e_max := Fin 0; acc := [Fin 2]; log := [] |} in
  let st' := split_body unit_consts (fun _ => NaN) (fun _ => NaN) 21 0 [0]
               [true] st 2 in
  split_kv_start unit_consts 21 2 = 42 /\
  split_kv_end unit_consts 21 2 = 21 /\
  e_max st' = Fin 0 /\ e_sum st' = Fin 1 /\ acc st' = [Fin 2] /\ log st' = [].
Proof.
  cbv zeta.
  destruct (C5_empty_split_skipped unit_consts (fun _ => NaN) (fun _ => NaN)
              21 0 [0] [true]
              {| e_sum := Fin 1; e_max := Fin 0; acc := [Fin 2]; log := [] |}
              2 ltac:(vm_compute; discriminate))
    as (_ & H1 & H2 & H3 & H4 & _).
  split; [reflexivity|]. split; [reflexivity|].
  split; [exact H1|]. split; [exact H2|]. split; [exact H3 | exact H4].
Defined.



(** ** Sequences without KV entries *)

Lemma xdiv_zero_zero : xdiv (Fin 0) (Fin 0) = NaN.
Proof.
  unfold xdiv. destruct (Req_dec_T 0 0) as [_ | H]; [|contradiction].
  reflexivity.
Qed.

Lemma zero_length_output {F : Type} {ops : FloatOps F} (c : stage2_consts)
    (qo_indptr kv_indptr : Z -> Z) (Mid_O Mid_lse : Z -> F) (b h o d : Z)
    (O : Z -> F) :
  qo_indptr b + o <= qo_indptr (b + 1) ->
  kv_indptr (b + 1) - kv_indptr b = 0 ->
  0 <= d < BLOCK_DV c -> d < Lv c ->
  O_out (_fwd_kernel_stage2_asm c qo_indptr kv_indptr Mid_O Mid_lse
           (b, h, o) O)
    ((qo_indptr b + o) * stride_obs c + h * stride_oh c + d)
  = f_div f_zero f_zero.
Proof.
  intros Hg Hlen Hd HLv.
  rewrite (kernel_output_lane c qo_indptr kv_indptr Mid_O Mid_lse b h o d O
             (fun _ => f_zero) Hg);
    rewrite ?reduce_zero_length by lia; try reflexivity; assumption.
Qed.

(** C9, as stated, fails: for a request with one query token and no KV
    entries the kernel stores NaN, the quotient [0/0]. *)
Lemma C9_counterexample :
  no_kv (0 + 1) - no_kv 0 = 0 /\
  ~ defined_value
      (O_out (_fwd_kernel_stage2_asm unit_consts one_query no_kv
                (fun _ => Fin 0) (fun _ => Fin 0) (0, 0, 0)
                (fun _ => Fin 0)) 0).
Proof.
  split; [reflexivity|].
  intros Hdef. apply Hdef.
  pose proof (zero_length_output unit_consts one_query no_kv
                (fun _ => Fin 0) (fun _ => Fin 0) 0 0 0 0 (fun _ => Fin 0)
                ltac:(vm_compute; discriminate) eq_refl
                ltac:(vm_compute; split; [discriminate | reflexivity])
                eq_refl)
    as H.
  change ((one_query 0 + 0) * stride_obs unit_consts
          + 0 * stride_oh unit_consts + 0) with 0 in H.
  rewrite H. exact xdiv_zero_zero.
Qed.

(** C9, amended.  For a sequence without KV entries every split is empty:
    the program instance loads nothing from [Mid_O] and [Mid_lse], leaves
    [e_sum] and [acc] at zero, and stores the quotient [acc / e_sum] of
    zero by zero in every lane of the row; no fallback value is put in its
    place.  In exact arithmetic with the IEEE special values that
    quotient is NaN. *)
Theorem C9_zero_length_sequence {F : Type} {ops : FloatOps F}
    (c : stage2_consts) (qo_indptr kv_indptr : Z -> Z)
    (Mid_O Mid_lse : Z -> F) (b h o : Z) (O : Z -> F) :
  qo_indptr b + o <= qo_indptr (b + 1) ->
  kv_indptr (b + 1) - kv_indptr b = 0 ->
  let q := qo_indptr b + o in
  let r := _fwd_kernel_stage2_asm c qo_indptr kv_indptr Mid_O Mid_lse
             (b, h, o) O in
  reduce c kv_indptr Mid_O Mid_lse b h q = init_state c b /\
  (forall a, ~ In (Load B_Mid_O a) (trace r)) /\
  (forall a, ~ In (Load B_Mid_lse a) (trace r)) /\
  (forall d, 0 <= d < BLOCK_DV c -> d < Lv c ->
     O_out r (q * stride_obs c + h * stride_oh c + d) = f_div f_zero f_zero) /\
  @f_div xreal xreal_ops f_zero f_zero = NaN.
Proof.
  intros Hg Hlen. cbv zeta.
  assert (Hred : reduce c kv_indptr Mid_O Mid_lse b h (qo_indptr b + o)
                 = init_state c b) by (apply reduce_zero_length; lia).
  split; [exact Hred|].
  rewrite (kernel_in_range c _ _ _ _ b h o O Hg). cbn [trace O_out].
  rewrite Hred.
  split; [|split; [|split]].
  - intros a Hin. cbn in Hin.
    repeat (destruct Hin as [Hin | Hin]; [discriminate Hin|]). exact Hin.
  - intros a Hin. cbn in Hin.
    repeat (destruct Hin as [Hin | Hin]; [discriminate Hin|]). exact Hin.
  - intros d Hd HLv.
    pose proof (zero_length_output c qo_indptr kv_indptr Mid_O Mid_lse
                  b h o d O Hg Hlen Hd HLv) as H.
    rewrite (kernel_in_range c _ _ _ _ b h o O Hg) in H. cbn [O_out] in H.
    rewrite Hred in H. exact H.
  - exact xdiv_zero_zero.
Qed.

Lemma C9_zero_length_sequence_witness :
  O_out (_fwd_kernel_stage2_asm unit_consts one_query no_kv
           (fun _ => Fin 1) (fun _ => Fin 1) (0, 0, 0) (fun _ => Fin 1)) 0
  = NaN.
Proof.
  destruct (C9_zero_length_sequence unit_consts one_query no_kv
              (fun _ => Fin 1) (fun _ => Fin 1) 0 0 0 (fun _ => Fin 1)
              ltac:(vm_compute; discriminate) eq_refl)
    as (_ & _ & _ & Hlane & Hnan).
  rewrite <- Hnan.
  apply (Hlane 0
           ltac:(vm_compute; split; [discriminate | reflexivity]) eq_refl).
Defined.

(** ** Sums over ranges of positions *)

Local Open Scope R_scope.

Lemma rsum_empty (f : Z -> R) (lo hi : Z) : (hi <= lo)%Z -> rsum f lo hi = 0.
Proof. intros H. unfold rsum. rewrite py_range_empty by exact H. reflexivity. Qed.

Lemma fold_right_Rplus_app (l1 l2 : list R) :
  fold_right Rplus 0 (l1 ++ l2)
  = fold_right Rplus 0 l1 + fold_right Rplus 0 l2.
Proof.
  induction l1 as [|x l1 IH]; simpl; [ring|]. rewrite IH. ring.
Qed.

Lemma rsum_app (f : Z -> R) (lo mid hi : Z) :
  (lo <= mid <= hi)%Z -> rsum f lo hi = rsum f lo mid + rsum f mid hi.
Proof.
  intros H. unfold rsum. rewrite (py_range_app lo mid hi H), map_app.
  apply fold_right_Rplus_app.
Qed.

Lemma rsum_ext (f g : Z -> R) (lo hi : Z) :
  (forall j, (lo <= j < hi)%Z -> f j = g j) -> rsum f lo hi = rsum g lo hi.
Proof.
  intros H. unfold rsum. f_equal. apply map_ext_in.
  intros j Hj. apply H. apply In_py_range. exact Hj.
Qed.

Lemma rsum_scale (a : R) (f : Z -> R) (lo hi : Z) :
  rsum (fun j => a * f j) lo hi = a * rsum f lo hi.
Proof.
  unfold rsum. induction (py_range lo hi) as [|x l IH]; simpl; [ring|].
  rewrite IH. ring.
Qed.

Lemma rsum_pos (f : Z -> R) (lo hi : Z) :
  (lo < hi)%Z -> (forall j, 0 < f j) -> 0 < rsum f lo hi.
Proof.
  intros Hlt Hf. unfold rsum. rewrite py_range_cons by exact Hlt. simpl.
  apply Rplus_lt_le_0_compat; [apply Hf|].
  induction (py_range (lo + 1) hi) as [|x l IH]; simpl; [lra|].
  pose proof (Hf x). lra.
Qed.

Lemma exp_sum_pos (l : Z -> R) (lo hi : Z) :
  (lo < hi)%Z -> 0 < rsum (fun j => exp (l j)) lo hi.
Proof. intros H. apply rsum_pos; [exact H | intros j; apply exp_pos]. Qed.

Lemma exp_log_sum_exp (l : Z -> R) (lo hi : Z) :
  (lo < hi)%Z -> exp (log_sum_exp l lo hi) = rsum (fun j => exp (l j)) lo hi.
Proof. intros H. apply exp_ln, exp_sum_pos, H. Qed.

(** The attention output is the weighted sum over the normaliser. *)
Lemma softmax_attention_quotient (l : Z -> R) (v : Z -> Z -> R) (d lo hi : Z) :
  softmax_attention l v d lo hi
  = rsum (fun j => exp (l j) * v j d) lo hi / rsum (fun j => exp (l j)) lo hi.
Proof.
  unfold softmax_attention.
  rewrite (rsum_ext _ (fun j => / rsum (fun i => exp (l i)) lo hi
                                * (exp (l j) * v j d))).
  - rewrite rsum_scale. unfold Rdiv. ring.
  - intros j _. unfold Rdiv. ring.
Qed.

Lemma softmax_attention_times_sum (l : Z -> R) (v : Z -> Z -> R) (d lo hi : Z) :
  (lo < hi)%Z ->
  softmax_attention l v d lo hi * rsum (fun j => exp (l j)) lo hi
  = rsum (fun j => exp (l j) * v j d) lo hi.
Proof.
  intros H. rewrite softmax_attention_quotient.
  pose proof (exp_sum_pos l lo hi H). field. lra.
Qed.

Lemma exp_shift (a n : R) : exp (a + - n) * exp n = exp a.
Proof. rewrite <- exp_plus. f_equal. ring. Qed.

Local Close Scope R_scope.

(** ** The reduction in exact arithmetic *)

Lemma xmax_fin_ninf (a : R) : f_max (Fin a) NInf = Fin a.
Proof. reflexivity. Qed.
Lemma xmax_fin_fin (a b : R) : f_max (Fin a) (Fin b) = Fin (Rmax a b).
Proof. reflexivity. Qed.
Lemma xsub_ninf_fin (a : R) : f_sub NInf (Fin a) = NInf.
Proof. reflexivity. Qed.
Lemma xsub_fin_fin (a b : R) : f_sub (Fin a) (Fin b) = Fin (a + - b).
Proof. reflexivity. Qed.
Lemma xexp_ninf : f_exp NInf = Fin 0.
Proof. reflexivity. Qed.
Lemma xexp_fin (a : R) : f_exp (Fin a) = Fin (exp a).
Proof. reflexivity. Qed.
Lemma xmul_fin_fin (a b : R) : f_mul (Fin a) (Fin b) = Fin (a * b).
Proof. reflexivity. Qed.
Lemma xadd_fin_fin (a b : R) : f_add (Fin a) (Fin b) = Fin (a + b).
Proof. reflexivity. Qed.
Lemma xzero_fin : @f_zero xreal xreal_ops = Fin 0.
Proof. reflexivity. Qed.
Lemma xneg_inf_ninf : @f_neg_inf xreal xreal_ops = NInf.
Proof. reflexivity. Qed.

Lemma xdiv_fin_fin (a b : R) : b <> 0%R -> f_div (Fin a) (Fin b) = Fin (a / b).
Proof.
  intros Hb. cbn. unfold xdiv.
  destruct (Req_dec_T b 0) as [E | _]; [contradiction | reflexivity].
Qed.

Create Rewrite HintDb xreal.
#[global] Hint Rewrite xmax_fin_ninf xmax_fin_fin xsub_ninf_fin xsub_fin_fin
  xexp_ninf xexp_fin xmul_fin_fin xadd_fin_fin xzero_fin xneg_inf_ninf
  : xreal.

(** A non-empty split merges its partial result into the state, lane by
    lane. *)
Lemma split_body_nonempty {F : Type} {ops : FloatOps F} (c : stage2_consts)
    (Mid_O Mid_lse : Z -> F) (len q h s : Z) (st : loop_state F)
    (phi : Z -> F) :
  split_kv_start c len s < split_kv_end c len s ->
  acc st = map phi (offs_d c) ->
  let tlogic := Mid_lse (ptr_logic c (offs_logic c q h) s) in
  let n_e_max := f_max tlogic (e_max st) in
  let old_scale := f_exp (f_sub (e_max st) n_e_max) in
  let exp_logic := f_exp (f_sub tlogic n_e_max) in
  let st' := split_body c Mid_O Mid_lse len (offs_logic c q h) (offs_v c q h)
               (mask_d c) st s in
  e_sum st' = f_add (f_mul (e_sum st) old_scale) exp_logic /\
  e_max st' = n_e_max /\
  acc st'
  = map (fun d =>
           f_add (f_mul (phi d) old_scale)
             (f_mul exp_logic
                (if d <? Lv c
                 then Mid_O ((q * stride_mid_ob c + h * stride_mid_oh c) * Lv c
                             + d + s * stride_mid_os c * Lv c)
                 else f_zero)))
      (offs_d c).
Proof.
  intros Hne Hacc. cbv zeta. unfold split_body.
  replace (split_kv_end c len s >? split_kv_start c len s) with true
    by (symmetry; apply Z.gtb_gt; lia).
  cbn [e_sum e_max acc]. split; [reflexivity|]. split; [reflexivity|].
  rewrite Hacc. unfold ptrs_v, offs_v, mask_d.
  rewrite !map_map, tl_load_masked_map, !map_map, map2_map.
  reflexivity.
Qed.

Lemma chunk_bounds (c : stage2_consts) (len : Z) :
  1 <= NUM_KV_SPLITS c -> 0 < len ->
  1 <= kv_len_per_split c len /\
  len <= kv_len_per_split c len * NUM_KV_SPLITS c.
Proof.
  intros HN Hlen. unfold kv_len_per_split.
  pose proof (tl_cdiv_ceil len (NUM_KV_SPLITS c) ltac:(lia) ltac:(lia)) as Hc.
  assert (1 <= tl_cdiv len (NUM_KV_SPLITS c)) by nia.
  split; [lia | nia].
Qed.

Section Exact.
Variable c : stage2_consts.
Variables Mid_O Mid_lse : Z -> xreal.
Variables len q h : Z.
Variable l : Z -> R.
Variable v : Z -> Z -> R.

Hypothesis HN : 1 <= NUM_KV_SPLITS c.
Hypothesis Hlen : 0 < len.
Hypothesis Hstage1 : stage1_contract c Mid_O Mid_lse len q h l v.

Local Abbreviation k := (kv_len_per_split c len).
Local Abbreviation body :=
  (split_body c Mid_O Mid_lse len (offs_logic c q h) (offs_v c q h)
     (mask_d c)).

Lemma merged_step (s : Z) (st : loop_state xreal) :
  0 <= s < NUM_KV_SPLITS c ->
  merged c l v (Z.min (k * s) len) st ->
  merged c l v (Z.min (k * (s + 1)) len) (body st s).
Proof.
  intros Hs (S & A & HS & HA & Hcase).
  destruct (chunk_bounds c len HN Hlen) as [Hk HkN].
  destruct (Z_le_gt_dec len (k * s)) as [Hfull | Hpart].
  - rewrite split_body_empty
      by (unfold split_kv_end, split_kv_start; lia).
    replace (Z.min (k * (s + 1)) len) with (Z.min (k * s) len) by lia.
    exists S, A. auto.
  - assert (Hstart : split_kv_start c len s = k * s) by reflexivity.
    assert (Hend : split_kv_end c len s = Z.min (k * (s + 1)) len).
    { unfold split_kv_end. rewrite Hstart. f_equal. ring. }
    assert (Hne : split_kv_start c len s < split_kv_end c len s) by lia.
    destruct (Hstage1 s Hs Hne) as [HL HT].
    destruct (split_body_nonempty c Mid_O Mid_lse len q h s st _ Hne HA)
      as (E1 & E2 & E3).
    rewrite Hstart, Hend in HL, HT.
    replace (Z.min (k * s) len) with (k * s) in Hcase by lia.
    set (hi := Z.min (k * (s + 1)) len) in *.
    set (L := log_sum_exp l (k * s) hi) in *.
    assert (HexpL : exp L = rsum (fun j => exp (l j)) (k * s) hi)
      by (apply exp_log_sum_exp; lia).
    set (T := fun d => if d <? Lv c
                       then softmax_attention l v d (k * s) hi else 0%R).
    assert (HTd : forall d, 0 <= d < Lv c ->
              (T d * exp L = rsum (fun j => exp (l j) * v j d) (k * s) hi)%R).
    { intros d Hd. unfold T.
      replace (d <? Lv c) with true by (symmetry; apply Z.ltb_lt; lia).
      rewrite HexpL. apply softmax_attention_times_sum. lia. }
    assert (Hlane : forall (sigma eps : R) d, In d (offs_d c) ->
              f_add (f_mul (Fin (A d)) (Fin sigma))
                (f_mul (Fin eps)
                   (if d <? Lv c
                    then Mid_O ((q * stride_mid_ob c + h * stride_mid_oh c)
                                * Lv c + d + s * stride_mid_os c * Lv c)
                    else f_zero))
              = Fin (A d * sigma + eps * T d)).
    { intros sigma eps d Hd. apply In_py_range in Hd. unfold T.
      destruct (d <? Lv c) eqn:E.
      - apply Z.ltb_lt in E. rewrite HT by lia. reflexivity.
      - reflexivity. }
    rewrite HS, HL in E1. rewrite HL in E2. rewrite HL in E3.
    destruct Hcase as [(H0 & Hm & HS0 & HA0) | (Hpos & m & Hm & HSm & HAm)].
    + rewrite Hm in E1, E2, E3. autorewrite with xreal in E1, E2, E3.
      exists (S * 0 + exp (L + - L))%R,
             (fun d => A d * 0 + exp (L + - L) * T d)%R.
      split; [exact E1|]. split.
      { rewrite E3. apply map_ext_in. intros d Hd. apply Hlane. exact Hd. }
      right. split; [lia|]. exists L. split; [exact E2|].
      rewrite H0 in HexpL, HTd.
      split.
      * rewrite Rmult_plus_distr_r, exp_shift, HS0, <- HexpL. ring.
      * intros d Hd. rewrite HA0, <- (HTd d Hd).
        replace ((0 * 0 + exp (L + - L) * T d) * exp L)%R
          with (T d * (exp (L + - L) * exp L))%R by ring.
        rewrite exp_shift. reflexivity.
    + rewrite Hm in E1, E2, E3. autorewrite with xreal in E1, E2, E3.
      set (n := Rmax L m) in *.
      exists (S * exp (m + - n) + exp (L + - n))%R,
             (fun d => A d * exp (m + - n) + exp (L + - n) * T d)%R.
      split; [exact E1|]. split.
      { rewrite E3. apply map_ext_in. intros d Hd. apply Hlane. exact Hd. }
      right. split; [lia|]. exists n. split; [exact E2|].
      split.
      * rewrite (rsum_app _ 0 (k * s) hi) by lia.
        rewrite <- HSm, <- HexpL.
        replace ((S * exp (m + - n) + exp (L + - n)) * exp n)%R
          with (S * (exp (m + - n) * exp n) + exp (L + - n) * exp n)%R
          by ring.
        rewrite !exp_shift. reflexivity.
      * intros d Hd. rewrite (rsum_app _ 0 (k * s) hi) by lia.
        rewrite <- (HAm d Hd), <- (HTd d Hd).
        replace ((A d * exp (m + - n) + exp (L + - n) * T d) * exp n)%R
          with (A d * (exp (m + - n) * exp n)
                + T d * (exp (L + - n) * exp n))%R by ring.
        rewrite !exp_shift. reflexivity.
Qed.

Lemma merged_init (b : Z) : merged c l v 0 (init_state c b).
Proof.
  exists 0%R, (fun _ => 0%R). split; [reflexivity|]. split; [reflexivity|].
  left. auto.
Qed.

Lemma merged_loop (b n : Z) :
  0 <= n <= NUM_KV_SPLITS c ->
  merged c l v (Z.min (k * n) len)
    (fold_left body (py_range 0 n) (init_state c b)).
Proof.
  intros [Hn0 HnN]. revert HnN.
  pattern n. apply natlike_ind; [| |exact Hn0].
  - intros _. rewrite Z.mul_0_r, Z.min_l by lia. apply merged_init.
  - intros x Hx IH HxN. unfold Z.succ.
    rewrite fold_left_py_range_snoc by exact Hx.
    apply merged_step; [lia|]. apply IH. lia.
Qed.

(** After the loop, [acc / e_sum] is the attention output over all
    [len] positions. *)
Lemma merged_all (b : Z) :
  exists (S : R) (A : Z -> R),
    let st := fold_left body (py_range 0 (NUM_KV_SPLITS c))
                (init_state c b) in
    e_sum st = Fin S /\
    acc st = map (fun d => Fin (A d)) (offs_d c) /\
    S <> 0%R /\
    forall d, 0 <= d < Lv c ->
      (A d / S)%R = softmax_attention l v d 0 len.
Proof.
  destruct (chunk_bounds c len HN Hlen) as [Hk HkN].
  pose proof (merged_loop b (NUM_KV_SPLITS c) ltac:(lia)) as Hm.
  rewrite Z.min_r in Hm by lia.
  destruct Hm as (S & A & HS & HA & [(H0 & _) | (_ & m & _ & HSm & HAm)]);
    [lia|].
  exists S, A. cbv zeta. split; [exact HS|]. split; [exact HA|].
  pose proof (exp_sum_pos l 0 len Hlen) as Hpos.
  pose proof (exp_pos m) as Hem.
  assert (HS0 : S <> 0%R).
  { intros ->. rewrite Rmult_0_l in HSm. lra. }
  split; [exact HS0|].
  intros d Hd. rewrite softmax_attention_quotient.
  rewrite <- HSm, <- (HAm d Hd). field. split; lra.
Qed.
End Exact.

(** The row that an in-range program instance stores, in exact
    arithmetic. *)
Lemma stage2_exact_lane (c : stage2_consts) (qo_indptr kv_indptr : Z -> Z)
    (Mid_O Mid_lse : Z -> xreal) (b h o : Z) (O : Z -> xreal)
    (l : Z -> R) (v : Z -> Z -> R) (d : Z) :
  1 <= NUM_KV_SPLITS c ->
  0 < kv_indptr (b + 1) - kv_indptr b ->
  qo_indptr b + o <= qo_indptr (b + 1) ->
  stage1_contract c Mid_O Mid_lse (kv_indptr (b + 1) - kv_indptr b)
    (qo_indptr b + o) h l v ->
  0 <= d < Lv c -> d < BLOCK_DV c ->
  O_out (_fwd_kernel_stage2_asm c qo_indptr kv_indptr Mid_O Mid_lse
           (b, h, o) O)
    ((qo_indptr b + o) * stride_obs c + h * stride_oh c + d)
  = Fin (softmax_attention l v d 0 (kv_indptr (b + 1) - kv_indptr b)).
Proof.
  intros HN Hlen Hg Hs1 Hd HB.
  destruct (merged_all c Mid_O Mid_lse _ _ h l v HN Hlen Hs1 b)
    as (S & A & HS & HA & HS0 & Hq).
  cbv zeta in HS, HA.
  rewrite (kernel_output_lane c qo_indptr kv_indptr Mid_O Mid_lse b h o d O
             (fun d => Fin (A d)) Hg HA) by lia.
  unfold reduce. rewrite HS, xdiv_fin_fin by exact HS0.
  rewrite (Hq d Hd). reflexivity.
Qed.




(** ** One split *)

Lemma xreal_single_merge (x : xreal) :
  xdiv (xadd (xmul (Fin 0) (Fin 0)) (xmul (Fin 1) x)) (Fin (0 * 0 + 1)) = x.
Proof.
  assert (H1 : (0 * 0 + 1)%R <> 0%R) by lra.
  destruct x as [r | | |]; cbn.
  - unfold xdiv. destruct (Req_dec_T (0 * 0 + 1) 0) as [E | _];
      [contradiction|]. f_equal. field.
  - unfold xscale_inf.
    destruct (Req_dec_T 1 0) as [E | _]; [lra|].
    destruct (Rlt_dec 0 1) as [_ | N]; [|lra]. cbn.
    destruct (Rlt_dec (0 * 0 + 1) 0) as [E | _]; [lra | reflexivity].
  - unfold xscale_inf.
    destruct (Req_dec_T 1 0) as [E | _]; [lra|].
    destruct (Rlt_dec 0 1) as [_ | N]; [|lra]. cbn.
    destruct (Rlt_dec (0 * 0 + 1) 0) as [E | _]; [lra | reflexivity].
  - reflexivity.
Qed.

(** With one split over a non-empty sequence and a finite partial
    log-sum-exp, stage 2 stores the partial output unchanged. *)
Lemma single_split_lane (c : stage2_consts) (qo_indptr kv_indptr : Z -> Z)
    (Mid_O Mid_lse : Z -> xreal) (b h o d : Z) (O : Z -> xreal) (L : R) :
  NUM_KV_SPLITS c = 1 ->
  qo_indptr b + o <= qo_indptr (b + 1) ->
  0 < kv_indptr (b + 1) - kv_indptr b ->
  Mid_lse (ptr_logic c (offs_logic c (qo_indptr b + o) h) 0) = Fin L ->
  0 <= d < Lv c -> d < BLOCK_DV c ->
  stage2_output c qo_indptr kv_indptr Mid_O Mid_lse b h o O d
  = direct_output c Mid_O (qo_indptr b + o) h d.
Proof.
  intros HN1 Hg Hlen HL Hd HB.
  destruct (chunk_bounds c _ ltac:(lia) Hlen) as [Hk _].
  assert (Hne : split_kv_start c (kv_indptr (b + 1) - kv_indptr b) 0
                < split_kv_end c (kv_indptr (b + 1) - kv_indptr b) 0).
  { unfold split_kv_end, split_kv_start. lia. }
  destruct (split_body_nonempty c Mid_O Mid_lse _ (qo_indptr b + o) h 0
              (init_state c b) (fun _ => f_zero) Hne eq_refl)
    as (E1 & E2 & E3).
  cbn [init_state e_sum e_max] in E1, E3.
  rewrite HL in E1, E3. autorewrite with xreal in E1, E3.
  replace (L + - L)%R with 0%R in E1, E3 by ring.
  rewrite exp_0 in E1, E3.
  assert (Hred : reduce c kv_indptr Mid_O Mid_lse b h (qo_indptr b + o)
                 = split_body c Mid_O Mid_lse
                     (kv_indptr (b + 1) - kv_indptr b)
                     (offs_logic c (qo_indptr b + o) h)
                     (offs_v c (qo_indptr b + o) h) (mask_d c)
                     (init_state c b) 0).
  { unfold reduce. rewrite HN1. reflexivity. }
  unfold stage2_output, direct_output.
  rewrite (kernel_output_lane c qo_indptr kv_indptr Mid_O Mid_lse b h o d O
             _ Hg ltac:(rewrite Hred; exact E3)) by lia.
  rewrite Hred, E1.
  replace (d <? Lv c) with true by (symmetry; apply Z.ltb_lt; lia).
  replace ((qo_indptr b + o) * stride_mid_ob c + h * stride_mid_oh c)
    with (offs_logic c (qo_indptr b + o) h) by reflexivity.
  replace (offs_logic c (qo_indptr b + o) h * Lv c + d
           + 0 * stride_mid_os c * Lv c)
    with (offs_logic c (qo_indptr b + o) h * Lv c + d) by ring.
  apply xreal_single_merge.
Qed.

Lemma next_power_of_2_ge (n : Z) : 0 < n -> n <= next_power_of_2 n.
Proof.
  intros Hn. unfold next_power_of_2.
  destruct (Z.eq_dec n 1) as [-> | H1]; [cbn; lia|].
  apply (Z.log2_up_spec n). lia.
Qed.

(** ** What [mla_decode_fwd] returns *)

Lemma decode_success_cases (cu_num : Z) (a : decode_args) (w : list call)
    (r : tensor * tensor) :
  run (mla_decode_fwd cu_num a) = (w, Return r) ->
  exists sc n mgc,
    (d_logit_cap a <= 0)%Q /\
    decode_scale a = Return sc /\
    decode_meta cu_num a = Return (n, mgc) /\
    ((n = 1 /\ ~ (d_max_seqlen_q a = 1 /\ d_nhead a = 16) /\
      w = [log_config; log_entry; log_shape; torch_empty (scratch_lse a 1);
           mla_decode_stage1_asm_fwd (d_max_seqlen_q a) sc
             (view (caller_o a) [d_total_s a; 1; d_nhead a; d_v_head_dim a])
             (scratch_lse a 1)] /\
      r = (view (caller_o a) [d_total_s a; d_nhead a; d_v_head_dim a],
           scratch_lse a 1)) \/
     ((n <> 1 \/ (d_max_seqlen_q a = 1 /\ d_nhead a = 16)) /\
      w = [log_config; log_entry; log_shape;
           torch_empty (scratch_logits a n); torch_empty (scratch_lse a n);
           mla_decode_stage1_asm_fwd (d_max_seqlen_q a) sc
             (scratch_logits a n) (scratch_lse a n);
           launch_stage2 (d_bs a, d_nhead a, d_max_seqlen_q a)
             (scratch_logits a n) (scratch_lse a n) (caller_o a)
             (launch_consts a (scratch_lse a n) n
                (next_power_of_2 (d_v_head_dim a)) (d_v_head_dim a) mgc)] /\
      r = (scratch_logits a n, scratch_lse a n))).
Proof.
  intros Hrun. pose proof (decode_outcomes cu_num a) as Hd.
  rewrite Hrun in Hd.
  inversion Hd as [Hc | e Hle Hk | sc mgc Hle Hsc Hm Hns
                   | sc n mgc Hle Hsc Hm Hns]; subst.
  - exists sc, 1, mgc. repeat (split; [assumption|]). left. auto.
  - exists sc, n, mgc. repeat (split; [assumption|]). right. auto.
Qed.

Lemma decode_direct_run (cu_num : Z) (a : decode_args) (sc : scale)
    (mgc : Z) :
  (d_logit_cap a <= 0)%Q ->
  decode_scale a = Return sc ->
  decode_meta cu_num a = Return (1, mgc) ->
  ~ (d_max_seqlen_q a = 1 /\ d_nhead a = 16) ->
  run (mla_decode_fwd cu_num a)
  = ([log_config; log_entry; log_shape; torch_empty (scratch_lse a 1);
      mla_decode_stage1_asm_fwd (d_max_seqlen_q a) sc
        (view (caller_o a) [d_total_s a; 1; d_nhead a; d_v_head_dim a])
        (scratch_lse a 1)],
     Return (view (caller_o a) [d_total_s a; d_nhead a; d_v_head_dim a],
             scratch_lse a 1)).
Proof.
  intros Hle Hsc Hm Hns. pose proof (decode_outcomes cu_num a) as Hd.
  inversion Hd as [Hc Heq | e Hle' Hk Heq | sc' mgc' Hle' Hsc' Hm' Hns' Heq
                   | sc' n mgc' Hle' Hsc' Hm' Hns' Heq].
  - exfalso. exact (Qlt_not_le _ _ Hc Hle).
  - exfalso. destruct Hk as [Hk | [_ Hk]]; congruence.
  - congruence.
  - exfalso. rewrite Hm in Hm'. injection Hm' as <- <-. tauto.
Qed.

Lemma numel_scratch_lse (a : decode_args) (n : Z) :
  numel (scratch_lse a n) = d_total_s a * n * d_nhead a.
Proof. unfold numel, scratch_lse. cbn. ring. Qed.

Lemma single_split_lse_is_full (c : stage2_consts)
    (Mid_O Mid_lse : Z -> xreal) (len q h : Z) (l : Z -> R)
    (v : Z -> Z -> R) :
  NUM_KV_SPLITS c = 1 -> 0 < len ->
  stage1_contract c Mid_O Mid_lse len q h l v ->
  Mid_lse (ptr_logic c (offs_logic c q h) 0) = Fin (log_sum_exp l 0 len).
Proof.
  intros HN1 Hlen Hs1.
  destruct (chunk_bounds c len ltac:(lia) Hlen) as [Hk HkN].
  rewrite HN1 in HkN.
  assert (Hstart : split_kv_start c len 0 = 0)
    by (unfold split_kv_start; lia).
  assert (Hend : split_kv_end c len 0 = len)
    by (unfold split_kv_end; rewrite Hstart; lia).
  destruct (Hs1 0 ltac:(lia) ltac:(lia)) as [HL _].
  rewrite Hstart, Hend in HL. exact HL.
Qed.

(** C2, as stated, fails: a call with two splits returns the stage-1
    scratch tensors, not the output buffer and not one log-sum-exp per
    [(q, h)]. *)
Lemma C2_counterexample :
  exists w out lse,
    run (mla_decode_fwd 80 (decode_call 128 1 (Some 2) 0))
    = (w, Return (out, lse)) /\
    storage_of out <> Caller_o /\
    shape out <> [3; 128; 512] /\
    numel lse <> 3 * 128.
Proof.
  exists (fst (run (mla_decode_fwd 80 (decode_call 128 1 (Some 2) 0)))),
         (scratch_logits (decode_call 128 1 (Some 2) 0) 2),
         (scratch_lse (decode_call 128 1 (Some 2) 0) 2).
  split; [reflexivity|].
  split; [discriminate|]. split; discriminate.
Qed.

(** C2, amended.  A successful call of [mla_decode_fwd] returns one of two
    pairs.  With one split, outside the single-token 16-head case, it
    returns the caller's [o] viewed as [(total_s, nhead, v_head_dim)] and
    the stage-1 log-sum-exp, one scalar per [(q, h)], and launches no
    stage 2; for a sequence with KV entries that scalar is the
    log-sum-exp over the whole range.  Otherwise it launches stage 2 on
    the caller's [o] and returns the stage-1 scratch: the partial outputs
    of shape [(total_s, num_kv_splits, nhead, v_head_dim)] and the
    log-sum-exp of every split, [total_s * num_kv_splits * nhead]
    scalars.  Stage 2 stores into [o] only: no aggregate log-sum-exp is
    computed. *)
Theorem C2_decode_returns (cu_num : Z) (a : decode_args) (w : list call)
    (out lse : tensor) :
  run (mla_decode_fwd cu_num a) = (w, Return (out, lse)) ->
  (exists n mgc,
     decode_meta cu_num a = Return (n, mgc) /\
     lse = scratch_lse a n /\
     numel lse = d_total_s a * n * d_nhead a /\
     ((n = 1 /\ ~ (d_max_seqlen_q a = 1 /\ d_nhead a = 16) /\
       out = view (caller_o a) [d_total_s a; d_nhead a; d_v_head_dim a] /\
       forall g t1 t2 t3 c, ~ In (launch_stage2 g t1 t2 t3 c) w) \/
      ((n <> 1 \/ (d_max_seqlen_q a = 1 /\ d_nhead a = 16)) /\
       out = scratch_logits a n /\
       In (launch_stage2 (d_bs a, d_nhead a, d_max_seqlen_q a)
             (scratch_logits a n) (scratch_lse a n) (caller_o a)
             (launch_consts a (scratch_lse a n) n
                (next_power_of_2 (d_v_head_dim a)) (d_v_head_dim a) mgc))
          w))) /\
  (forall (c : stage2_consts) (qo_indptr kv_indptr : Z -> Z)
          (Mid_O Mid_lse O : Z -> xreal) (pid : Z * Z * Z) buf addrs,
     In (Store buf addrs)
        (trace (_fwd_kernel_stage2_asm c qo_indptr kv_indptr Mid_O Mid_lse
                  pid O)) ->
     buf = B_O) /\
  (forall (c : stage2_consts) (Mid_O Mid_lse : Z -> xreal) (len q h : Z)
          (l : Z -> R) (v : Z -> Z -> R),
     NUM_KV_SPLITS c = 1 -> 0 < len ->
     stage1_contract c Mid_O Mid_lse len q h l v ->
     Mid_lse (ptr_logic c (offs_logic c q h) 0) = Fin (log_sum_exp l 0 len)).
Proof.
  intros Hrun. split; [|split].
  - destruct (decode_success_cases cu_num a w (out, lse) Hrun)
      as (sc & n & mgc & _ & _ & Hm & Hcase).
    exists n, mgc. split; [exact Hm|].
    destruct Hcase as [(-> & Hns & -> & Hr) | (Hns & -> & Hr)];
      injection Hr as -> ->.
    + split; [reflexivity|]. split; [apply numel_scratch_lse|].
      left. repeat (split; [assumption || reflexivity|]).
      intros g t1 t2 t3 c Hin. cbn in Hin.
      repeat (destruct Hin as [Hin | Hin]; [discriminate Hin|]).
      exact Hin.
    + split; [reflexivity|]. split; [apply numel_scratch_lse|].
      right. split; [exact Hns|]. split; [reflexivity|].
      apply in_or_app with (l := [log_config; log_entry; log_shape;
        torch_empty (scratch_logits a n); torch_empty (scratch_lse a n);
        mla_decode_stage1_asm_fwd (d_max_seqlen_q a) sc
          (scratch_logits a n) (scratch_lse a n)]).
      right. left. reflexivity.
  - intros c qo kv MO ML O pid buf addrs.
    apply kernel_stores_only_O.
  - intros c MO ML len q h l v. apply single_split_lse_is_full.
Qed.

Lemma C2_decode_returns_witness :
  exists n mgc,
    decode_meta 80 (decode_call 128 1 (Some 2) 0) = Return (n, mgc) /\
    scratch_lse (decode_call 128 1 (Some 2) 0) 2
    = scratch_lse (decode_call 128 1 (Some 2) 0) n.
Proof.
  destruct (C2_decode_returns 80 (decode_call 128 1 (Some 2) 0)
              (fst (run (mla_decode_fwd 80 (decode_call 128 1 (Some 2) 0))))
              (scratch_logits (decode_call 128 1 (Some 2) 0) 2)
              (scratch_lse (decode_call 128 1 (Some 2) 0) 2)
              eq_refl) as ((n & mgc & Hm & Hlse & _) & _).
  exists n, mgc. split; [exact Hm | exact Hlse].
Defined.

(** C4, as stated, fails: for a sequence without KV entries, stage 2 with
    one split stores NaN where the direct path leaves the partial
    result. *)
Lemma C4_counterexample :
  NUM_KV_SPLITS unit_consts = 1 /\
  stage2_output unit_consts one_query no_kv (fun _ => Fin 1)
    (fun _ => Fin 0) 0 0 0 (fun _ => Fin 0) 0
  <> direct_output unit_consts (fun _ => Fin 1) (one_query 0 + 0) 0 0.
Proof.
  split; [reflexivity|].
  unfold stage2_output, direct_output.
  rewrite (zero_length_output unit_consts one_query no_kv
             (fun _ => Fin 1) (fun _ => Fin 0) 0 0 0 0 (fun _ => Fin 0)
             ltac:(vm_compute; discriminate) eq_refl
             ltac:(vm_compute; split; [discriminate | reflexivity])
             eq_refl).
  change (@f_div xreal xreal_ops f_zero f_zero) with (xdiv (Fin 0) (Fin 0)).
  rewrite xdiv_zero_zero. discriminate.
Qed.

(** C4, amended.  When [num_kv_splits == 1] and not ([max_seqlen_q == 1]
    and [nhead == 16]), [mla_decode_fwd] passes the caller's [o], viewed
    with one split, to stage 1 as [logits], launches no stage 2 and
    returns [o] with the stage-1 log-sum-exp.  Stage 2 with one split
    stores, for every query row of a sequence with at least one KV entry
    and a finite partial log-sum-exp, exactly the partial output, the
    value the direct path leaves in [o]; it stores into [O] only, so the
    log-sum-exp is the same too. *)
Theorem C4_single_split_direct (cu_num : Z) (a : decode_args) (sc : scale)
    (mgc : Z) :
  (d_logit_cap a <= 0)%Q ->
  decode_scale a = Return sc ->
  decode_meta cu_num a = Return (1, mgc) ->
  ~ (d_max_seqlen_q a = 1 /\ d_nhead a = 16) ->
  run (mla_decode_fwd cu_num a)
  = ([log_config; log_entry; log_shape; torch_empty (scratch_lse a 1);
      mla_decode_stage1_asm_fwd (d_max_seqlen_q a) sc
        (view (caller_o a) [d_total_s a; 1; d_nhead a; d_v_head_dim a])
        (scratch_lse a 1)],
     Return (view (caller_o a) [d_total_s a; d_nhead a; d_v_head_dim a],
             scratch_lse a 1)) /\
  forall (c : stage2_consts) (qo_indptr kv_indptr : Z -> Z)
         (Mid_O Mid_lse O : Z -> xreal) (b h o : Z) (L : R),
    NUM_KV_SPLITS c = 1 ->
    qo_indptr b + o <= qo_indptr (b + 1) ->
    0 < kv_indptr (b + 1) - kv_indptr b ->
    Mid_lse (ptr_logic c (offs_logic c (qo_indptr b + o) h) 0) = Fin L ->
    (forall d, 0 <= d < Lv c -> d < BLOCK_DV c ->
       stage2_output c qo_indptr kv_indptr Mid_O Mid_lse b h o O d
       = direct_output c Mid_O (qo_indptr b + o) h d) /\
    (forall buf addrs,
       In (Store buf addrs)
          (trace (_fwd_kernel_stage2_asm c qo_indptr kv_indptr Mid_O Mid_lse
                    (b, h, o) O)) ->
       buf = B_O).
Proof.
  intros Hle Hsc Hm Hns. split.
  - apply (decode_direct_run cu_num a sc mgc); assumption.
  - intros c qo kv MO ML O b h o L HN1 Hg Hlen HL. split.
    + intros d Hd HB. apply (single_split_lane c qo kv MO ML b h o d O L);
        assumption.
    + intros buf addrs. apply kernel_stores_only_O.
Qed.

Lemma C4_single_split_direct_witness :
  run (mla_decode_fwd 80 (decode_call 128 1 (Some 1) 0))
  = ([log_config; log_entry; log_shape;
      torch_empty {| storage_of := Empty_attn_lse; shape := [3; 1; 128; 1] |};
      mla_decode_stage1_asm_fwd 1 (Default_scale 576)
        {| storage_of := Caller_o; shape := [3; 1; 128; 512] |}
        {| storage_of := Empty_attn_lse; shape := [3; 1; 128; 1] |}],
     Return ({| storage_of := Caller_o; shape := [3; 128; 512] |},
             {| storage_of := Empty_attn_lse; shape := [3; 1; 128; 1] |})) /\
  stage2_output unit_consts one_query one_kv (fun _ => Fin 7)
    (fun _ => Fin 3) 0 0 0 (fun _ => Fin 0) 0
  = direct_output unit_consts (fun _ => Fin 7) (one_query 0 + 0) 0 0.
Proof.
  destruct (C4_single_split_direct 80 (decode_call 128 1 (Some 1) 0)
              (Default_scale 576) 16
              ltac:(discriminate) eq_refl eq_refl
              ltac:(intros [_ H]; discriminate H))
    as [Hrun Hk].
  split; [exact Hrun|].
  destruct (Hk unit_consts one_query one_kv (fun _ => Fin 7)
              (fun _ => Fin 3) (fun _ => Fin 0) 0 0 0 3%R
              eq_refl ltac:(vm_compute; discriminate) eq_refl eq_refl)
    as [Hlane _].
  apply (Hlane 0 ltac:(vm_compute; split; [discriminate | reflexivity])
           eq_refl).
Defined.


(** * Further properties of the kernel and of the entry points *)

(** ** Which addresses a program instance touches *)

Lemma filter_ltb_range (B L : Z) :
  filter (fun d => d <? L) (py_range 0 B) = py_range 0 (Z.min B L).
Proof.
  destruct (Z_le_gt_dec B 0) as [HB | HB].
  - rewrite (py_range_empty 0 B) by lia.
    rewrite py_range_empty by lia. reflexivity.
  - assert (H0 : 0 <= B) by lia. clear HB.
    pattern B. apply natlike_ind; [| | exact H0].
    { rewrite (py_range_empty 0 (Z.min 0 L)) by lia. reflexivity. }
    intros x Hx IH. unfold Z.succ.
    rewrite py_range_snoc by lia. rewrite filter_app, IH. cbn [filter].
    destruct (x <? L) eqn:E.
    + apply Z.ltb_lt in E.
      replace (Z.min x L) with x by lia.
      replace (Z.min (x + 1) L) with (x + 1) by lia.
      rewrite py_range_snoc by lia. reflexivity.
    + apply Z.ltb_ge in E. rewrite app_nil_r. f_equal. lia.
Qed.

Lemma loop_log {F : Type} {ops : FloatOps F} (c : stage2_consts)
    (Mid_O Mid_lse : Z -> F) (len q h : Z) (l : list Z) (st : loop_state F) :
  log (fold_left
         (split_body c Mid_O Mid_lse len (offs_logic c q h) (offs_v c q h)
            (mask_d c)) l st)
  = log st ++ flat_map (split_loads c len q h) l.
Proof.
  revert st. induction l as [|s l IH]; intros st; simpl.
  - rewrite app_nil_r. reflexivity.
  - rewrite IH. rewrite app_assoc. f_equal.
    unfold split_body, split_loads.
    destruct (split_kv_end c len s >? split_kv_start c len s).
    + reflexivity.
    + rewrite app_nil_r. reflexivity.
Qed.

Lemma loop_acc_shape {F : Type} {ops : FloatOps F} (c : stage2_consts)
    (Mid_O Mid_lse : Z -> F) (len q h : Z) (l : list Z) (st : loop_state F) :
  (exists phi, acc st = map phi (offs_d c)) ->
  exists phi,
    acc (fold_left
           (split_body c Mid_O Mid_lse len (offs_logic c q h) (offs_v c q h)
              (mask_d c)) l st)
    = map phi (offs_d c).
Proof.
  revert st. induction l as [|s l IH]; intros st Hst; [exact Hst|].
  simpl. apply IH. destruct Hst as [phi Hphi].
  destruct (Z_lt_le_dec (split_kv_start c len s) (split_kv_end c len s))
    as [Hne | He].
  - destruct (split_body_nonempty c Mid_O Mid_lse len q h s st phi Hne Hphi)
      as (_ & _ & E).
    eexists. exact E.
  - rewrite split_body_empty by exact He. exists phi. exact Hphi.
Qed.

Lemma active_lanes (c : stage2_consts) (base : Z) :
  active (map (fun d => base + d) (offs_d c)) (mask_d c)
  = map (fun d => base + d) (py_range 0 (Z.min (BLOCK_DV c) (Lv c))).
Proof.
  unfold mask_d. rewrite active_map. unfold offs_d, tl_arange.
  rewrite filter_ltb_range. reflexivity.
Qed.

Lemma kernel_trace_in_range {F : Type} {ops : FloatOps F}
    (c : stage2_consts) (qo_indptr kv_indptr : Z -> Z)
    (Mid_O Mid_lse : Z -> F) (b h o : Z) (O : Z -> F) :
  qo_indptr b + o <= qo_indptr (b + 1) ->
  let q := qo_indptr b + o in
  let len := kv_indptr (b + 1) - kv_indptr b in
  trace (_fwd_kernel_stage2_asm c qo_indptr kv_indptr Mid_O Mid_lse
           (b, h, o) O)
  = [Load B_qo_indptr [b]; Load B_qo_indptr [b + 1];
     Load B_kv_indptr [b + 1]; Load B_kv_indptr [b]]
    ++ flat_map (split_loads c len q h) (py_range 0 (NUM_KV_SPLITS c))
    ++ [Store B_O
          (map (fun d => q * stride_obs c + h * stride_oh c + d)
             (py_range 0 (Z.min (BLOCK_DV c) (Lv c))))].
Proof.
  intros Hg. cbv zeta.
  rewrite (kernel_in_range c _ _ _ _ b h o O Hg). cbn [trace].
  unfold reduce. rewrite loop_log. cbn [init_state log guard_loads app].
  unfold ptrs_o. rewrite active_lanes. reflexivity.
Qed.

(** The accesses of an in-range program instance, in program order: the
    two loads of [qo_indptr], the two loads of [kv_indptr], for every
    non-empty split in increasing order one load of the lanes below [Lv]
    of its partial output and one of its log-sum-exp, and at the end the
    store of the lanes below [Lv] of the output row. *)
Theorem stage2_access_pattern {F : Type} {ops : FloatOps F}
    (c : stage2_consts) (qo_indptr kv_indptr : Z -> Z)
    (Mid_O Mid_lse : Z -> F) (b h o : Z) (O : Z -> F) :
  qo_indptr b + o <= qo_indptr (b + 1) ->
  let q := qo_indptr b + o in
  let len := kv_indptr (b + 1) - kv_indptr b in
  trace (_fwd_kernel_stage2_asm c qo_indptr kv_indptr Mid_O Mid_lse
           (b, h, o) O)
  = [Load B_qo_indptr [b]; Load B_qo_indptr [b + 1];
     Load B_kv_indptr [b + 1]; Load B_kv_indptr [b]]
    ++ flat_map (split_loads c len q h) (py_range 0 (NUM_KV_SPLITS c))
    ++ [Store B_O
          (map (fun d => q * stride_obs c + h * stride_oh c + d)
             (py_range 0 (Z.min (BLOCK_DV c) (Lv c))))].
Proof.
  intros Hg q len. subst q len.
  rewrite kernel_trace_in_range by exact Hg.
  reflexivity.
Qed.

Lemma stage2_access_pattern_witness :
  trace (_fwd_kernel_stage2_asm two_split_consts one_query two_kv
           (fun _ => Fin 0) (fun _ => Fin 0) (0, 0, 0) (fun _ => Fin 0))
  = [Load B_qo_indptr [0]; Load B_qo_indptr [1];
     Load B_kv_indptr [1]; Load B_kv_indptr [0];
     Load B_Mid_O [0]; Load B_Mid_lse [0];
     Load B_Mid_O [1]; Load B_Mid_lse [1];
     Store B_O [0]].
Proof.
  apply (stage2_access_pattern two_split_consts one_query two_kv
           (fun _ => Fin 0) (fun _ => Fin 0) 0 0 0 (fun _ => Fin 0)).
  vm_compute. discriminate.
Defined.

(** A program instance changes the output buffer at most in the lanes
    below [Lv] of its own row: every other address keeps its value. *)
Theorem stage2_store_frame {F : Type} {ops : FloatOps F}
    (c : stage2_consts) (qo_indptr kv_indptr : Z -> Z)
    (Mid_O Mid_lse : Z -> F) (b h o : Z) (O : Z -> F) (a : Z) :
  (forall d, 0 <= d < BLOCK_DV c -> d < Lv c ->
     a <> (qo_indptr b + o) * stride_obs c + h * stride_oh c + d) ->
  O_out (_fwd_kernel_stage2_asm c qo_indptr kv_indptr Mid_O Mid_lse
           (b, h, o) O) a
  = O a.
Proof.
  intros Ha.
  destruct (Z_le_gt_dec (qo_indptr b + o) (qo_indptr (b + 1))) as [Hg | Hg].
  - rewrite (kernel_in_range c _ _ _ _ b h o O Hg). cbn [O_out].
    destruct (loop_acc_shape c Mid_O Mid_lse
                (kv_indptr (b + 1) - kv_indptr b) (qo_indptr b + o) h
                (py_range 0 (NUM_KV_SPLITS c)) (init_state c b)
                (ex_intro _ (fun _ => f_zero) eq_refl)) as [phi Hphi].
    unfold reduce. rewrite Hphi, map_map. unfold ptrs_o, mask_d.
    rewrite tl_store_masked_map. apply store_untouched.
    intros d Hd Hm Heq. apply In_py_range in Hd. apply Z.ltb_lt in Hm.
    apply (Ha d); [exact Hd | exact Hm | symmetry; exact Heq].
  - rewrite (kernel_out_of_range c _ _ _ _ b h o O Hg). reflexivity.
Qed.

Lemma stage2_store_frame_witness :
  O_out (_fwd_kernel_stage2_asm two_split_consts one_query two_kv
           (fun _ => Fin 1) (fun _ => Fin 0) (0, 0, 0) (fun _ => Fin 5)) 1
  = Fin 5.
Proof.
  apply (stage2_store_frame two_split_consts one_query two_kv
           (fun _ => Fin 1) (fun _ => Fin 0) 0 0 0 (fun _ => Fin 5) 1).
  intros d Hd _. cbn in Hd |- *. lia.
Defined.


(** ** Layout of the scratch tensors *)

Lemma launch_strides (a : decode_args) (n B Lv0 mgc0 : Z) :
  1 <= n -> 1 <= d_nhead a ->
  let c := launch_consts a (scratch_lse a n) n B Lv0 mgc0 in
  stride_mid_ob c = n * d_nhead a /\
  stride_mid_oh c = 1 /\
  stride_mid_os c = d_nhead a.
Proof.
  intros Hn Hh. cbv zeta.
  unfold launch_consts, stride, scratch_lse.
  cbn [stride_mid_ob stride_mid_oh stride_mid_os shape contiguous_strides
       hd_error nth].
  rewrite !Z.max_l by lia. repeat split; ring.
Qed.

Lemma flat_index_bounds (ns nh dv ts q s h d : Z) :
  0 <= q < ts -> 0 <= s < ns -> 0 <= h < nh -> 0 <= d < dv ->
  0 <= flat_index ns nh dv q s h d < ts * ns * nh * dv.
Proof.
  intros Hq Hs Hh Hd. unfold flat_index.
  assert (H1 : 0 <= q * ns + s < ts * ns) by nia.
  assert (H2 : 0 <= (q * ns + s) * nh + h < ts * ns * nh) by nia.
  nia.
Qed.

(** With the strides that [mla_decode_fwd] hands to the launch, the kernel
    addresses the partial results row-major: the log-sum-exp of the query
    row [q], split [s] and head [h] at the offset of [(q, s, h, 0)] in
    [attn_lse], and lane [d] of the partial output at the offset of
    [(q, s, h, d)] in [logits]; for coordinates within the shapes these
    offsets lie within the two scratch tensors. *)
Theorem decode_launch_layout (a : decode_args) (n B mgc0 q s h : Z) :
  1 <= n -> 1 <= d_nhead a ->
  let c := launch_consts a (scratch_lse a n) n B (d_v_head_dim a) mgc0 in
  ptr_logic c (offs_logic c q h) s = flat_index n (d_nhead a) 1 q s h 0 /\
  ptrs_v c (offs_v c q h) s
  = map (flat_index n (d_nhead a) (d_v_head_dim a) q s h) (offs_d c) /\
  (0 <= q < d_total_s a -> 0 <= s < n -> 0 <= h < d_nhead a ->
   0 <= flat_index n (d_nhead a) 1 q s h 0 < numel (scratch_lse a n) /\
   forall d, 0 <= d < d_v_head_dim a ->
     0 <= flat_index n (d_nhead a) (d_v_head_dim a) q s h d
     < numel (scratch_logits a n)).
Proof.
  intros Hn Hh c.
  destruct (launch_strides a n B (d_v_head_dim a) mgc0 Hn Hh)
    as (Hob & Hoh & Hos).
  fold c in Hob, Hoh, Hos.
  split; [|split].
  - unfold ptr_logic, offs_logic, flat_index. rewrite Hob, Hoh, Hos. ring.
  - unfold ptrs_v, offs_v. rewrite map_map. apply map_ext. intros d.
    unfold flat_index. rewrite Hob, Hoh, Hos.
    change (Lv c) with (d_v_head_dim a). ring.
  - intros Hq Hs Hhh.
    replace (numel (scratch_lse a n))
      with (d_total_s a * n * d_nhead a * 1)
      by (unfold numel, scratch_lse; cbn [shape fold_right]; ring).
    replace (numel (scratch_logits a n))
      with (d_total_s a * n * d_nhead a * d_v_head_dim a)
      by (unfold numel, scratch_logits; cbn [shape fold_right]; ring).
    split; [apply flat_index_bounds; lia|].
    intros d Hd. apply flat_index_bounds; lia.
Qed.

Lemma decode_launch_layout_witness :
  let a := decode_call 128 1 (Some 2) 0 in
  let c := launch_consts a (scratch_lse a 2) 2 512 512 16 in
  ptr_logic c (offs_logic c 1 5) 1 = 389 /\
  0 <= flat_index 2 128 1 2 1 127 0 < numel (scratch_lse a 2).
Proof.
  intros a c.
  destruct (decode_launch_layout a 2 512 16 1 1 5
              ltac:(vm_compute; discriminate) ltac:(vm_compute; discriminate))
    as (H1 & _ & _).
  destruct (decode_launch_layout a 2 512 16 2 1 127
              ltac:(vm_compute; discriminate) ltac:(vm_compute; discriminate))
    as (_ & _ & H3).
  split; [exact H1|].
  apply H3; vm_compute; split; (discriminate || reflexivity).
Defined.

(** ** The instance one past the last query of a sequence *)

(** The instance at offset [qo_indptr[b+1] - qo_indptr[b]] passes the
    guard and works on the row [qo_indptr[b+1]], with the KV length of
    sequence [b].  That row is the first row of sequence [b+1]: the
    instance [(b+1, h, 0)] stores to the same addresses, reduced with the
    KV length of sequence [b+1]. *)
Theorem stage2_boundary_instance_shares_row {F : Type} {ops : FloatOps F}
    (c : stage2_consts) (qo_indptr kv_indptr : Z -> Z)
    (Mid_O Mid_lse : Z -> F) (b h : Z) (O : Z -> F) :
  qo_indptr b <= qo_indptr (b + 1) <= qo_indptr (b + 1 + 1) ->
  let o := qo_indptr (b + 1) - qo_indptr b in
  let row := map (fun d => qo_indptr (b + 1) * stride_obs c
                           + h * stride_oh c + d)
               (py_range 0 (Z.min (BLOCK_DV c) (Lv c))) in
  trace (_fwd_kernel_stage2_asm c qo_indptr kv_indptr Mid_O Mid_lse
           (b, h, o) O)
  = [Load B_qo_indptr [b]; Load B_qo_indptr [b + 1];
     Load B_kv_indptr [b + 1]; Load B_kv_indptr [b]]
    ++ flat_map (split_loads c (kv_indptr (b + 1) - kv_indptr b)
                   (qo_indptr (b + 1)) h)
         (py_range 0 (NUM_KV_SPLITS c))
    ++ [Store B_O row] /\
  trace (_fwd_kernel_stage2_asm c qo_indptr kv_indptr Mid_O Mid_lse
           (b + 1, h, 0) O)
  = [Load B_qo_indptr [b + 1]; Load B_qo_indptr [b + 1 + 1];
     Load B_kv_indptr [b + 1 + 1]; Load B_kv_indptr [b + 1]]
    ++ flat_map (split_loads c (kv_indptr (b + 1 + 1) - kv_indptr (b + 1))
                   (qo_indptr (b + 1)) h)
         (py_range 0 (NUM_KV_SPLITS c))
    ++ [Store B_O row].
Proof.
  intros Hmono o row. subst o row. split.
  - rewrite kernel_trace_in_range by lia.
    replace (qo_indptr b + (qo_indptr (b + 1) - qo_indptr b))
      with (qo_indptr (b + 1)) by ring.
    reflexivity.
  - rewrite kernel_trace_in_range by lia.
    replace (qo_indptr (b + 1) + 0) with (qo_indptr (b + 1)) by ring.
    reflexivity.
Qed.

Lemma stage2_boundary_instance_shares_row_witness :
  exists loads1 loads2,
    trace (_fwd_kernel_stage2_asm unit_consts one_query one_kv
             (fun _ => Fin 0) (fun _ => Fin 0) (0, 0, 1) (fun _ => Fin 0))
    = loads1 ++ [Store B_O [1]] /\
    trace (_fwd_kernel_stage2_asm unit_consts one_query one_kv
             (fun _ => Fin 0) (fun _ => Fin 0) (1, 0, 0) (fun _ => Fin 0))
    = loads2 ++ [Store B_O [1]].
Proof.
  destruct (stage2_boundary_instance_shares_row unit_consts one_query one_kv
              (fun _ => Fin 0) (fun _ => Fin 0) 0 0 (fun _ => Fin 0)
              ltac:(vm_compute; split; discriminate)) as [H1 H2].
  eexists. eexists. split.
  - etransitivity; [exact H1|]. rewrite app_assoc. reflexivity.
  - etransitivity; [exact H2|]. rewrite app_assoc. reflexivity.
Defined.

(** For the last sequence that row does not exist.  With [o] contiguous,
    of [total_s] rows of [nheads * Lv] values, the instance at offset
    [total_s - qo_indptr[b]] of the last sequence passes the guard and
    stores [Lv] values at addresses at or beyond the end of [o]. *)
Theorem stage2_boundary_instance_out_of_bounds {F : Type} {ops : FloatOps F}
    (c : stage2_consts) (qo_indptr kv_indptr : Z -> Z)
    (Mid_O Mid_lse : Z -> F) (b h total_s : Z) (O : Z -> F) :
  qo_indptr b <= qo_indptr (b + 1) ->
  qo_indptr (b + 1) = total_s ->
  stride_obs c = nheads c * Lv c -> stride_oh c = Lv c ->
  0 <= h -> 0 < Lv c <= BLOCK_DV c ->
  exists addrs,
    In (Store B_O addrs)
       (trace (_fwd_kernel_stage2_asm c qo_indptr kv_indptr Mid_O Mid_lse
                 (b, h, total_s - qo_indptr b) O)) /\
    List.length addrs = Z.to_nat (Lv c) /\
    forall a, In a addrs -> total_s * nheads c * Lv c <= a.
Proof.
  intros Hmono Hlast Hobs Hoh Hh HLv.
  rewrite kernel_trace_in_range by lia.
  eexists. split.
  - apply in_or_app. right. apply in_or_app. right. left. reflexivity.
  - split.
    + rewrite length_map, py_range_length. f_equal. lia.
    + intros a Ha. apply in_map_iff in Ha. destruct Ha as (d & <- & Hd).
      apply In_py_range in Hd. rewrite Hobs, Hoh. nia.
Qed.

Lemma stage2_boundary_instance_out_of_bounds_witness :
  exists addrs,
    In (Store B_O addrs)
       (trace (_fwd_kernel_stage2_asm unit_consts one_query one_kv
                 (fun _ => Fin 0) (fun _ => Fin 0) (0, 0, 1 - one_query 0)
                 (fun _ => Fin 0))) /\
    List.length addrs = 1%nat /\
    forall a, In a addrs -> 1 * nheads unit_consts * Lv unit_consts <= a.
Proof.
  apply (stage2_boundary_instance_out_of_bounds unit_consts one_query one_kv
           (fun _ => Fin 0) (fun _ => Fin 0) 0 0 1 (fun _ => Fin 0));
    vm_compute; try reflexivity; try discriminate.
  split; [reflexivity | discriminate].
Defined.

(** In [test_mla] every sequence has [mtp] query tokens and [ctx_lens] KV
    entries, and the grid has [mtp] offsets: every launched instance passes
    the guard with a row strictly inside its own sequence and reduces
    over [ctx_lens] positions, different instances of one head work on
    different rows, and every row below the total is the row of one of
    them.  The instance one past the last query is never launched. *)
Theorem test_grid_covers_rows_exactly {F : Type} {ops : FloatOps F}
    (c : stage2_consts) (Mid_O Mid_lse : Z -> F) (O : Z -> F)
    (mtp ctx_lens batch_size : Z) :
  0 < mtp ->
  (forall b h o, 0 <= o < mtp ->
     cumsum_fill mtp b + o < cumsum_fill mtp (b + 1) /\
     trace (_fwd_kernel_stage2_asm c (cumsum_fill mtp) (cumsum_fill ctx_lens)
              Mid_O Mid_lse (b, h, o) O)
     = [Load B_qo_indptr [b]; Load B_qo_indptr [b + 1];
        Load B_kv_indptr [b + 1]; Load B_kv_indptr [b]]
       ++ flat_map (split_loads c ctx_lens (mtp * b + o) h)
            (py_range 0 (NUM_KV_SPLITS c))
       ++ [Store B_O
             (map (fun d => (mtp * b + o) * stride_obs c + h * stride_oh c + d)
                (py_range 0 (Z.min (BLOCK_DV c) (Lv c))))]) /\
  (forall b o b' o', 0 <= o < mtp -> 0 <= o' < mtp ->
     cumsum_fill mtp b + o = cumsum_fill mtp b' + o' -> b = b' /\ o = o') /\
  (forall q, 0 <= q < cumsum_fill mtp batch_size ->
     exists b o, 0 <= b < batch_size /\ 0 <= o < mtp /\
                 q = cumsum_fill mtp b + o).
Proof.
  intros Hm. split; [|split].
  - intros b h o Ho.
    assert (Hlt : cumsum_fill mtp b + o < cumsum_fill mtp (b + 1))
      by (unfold cumsum_fill; nia).
    split; [exact Hlt|].
    rewrite kernel_trace_in_range by lia.
    replace (cumsum_fill ctx_lens (b + 1) - cumsum_fill ctx_lens b)
      with ctx_lens by (unfold cumsum_fill; ring).
    reflexivity.
  - unfold cumsum_fill. intros b o b' o' Ho Ho' Heq.
    assert (b = b') by nia. subst b'. split; [reflexivity | lia].
  - unfold cumsum_fill. intros q Hq. exists (q / mtp), (q mod mtp).
    pose proof (Z.div_mod q mtp ltac:(lia)) as E.
    pose proof (Z.mod_pos_bound q mtp Hm) as Bm.
    split; [|split; [exact Bm | lia]].
    split; [apply Z.div_pos; lia | apply Z.div_lt_upper_bound; lia].
Qed.

Lemma test_grid_covers_rows_exactly_witness :
  cumsum_fill 2 3 + 1 < cumsum_fill 2 (3 + 1) /\
  exists b o, 0 <= b < 5 /\ 0 <= o < 2 /\ 7 = cumsum_fill 2 b + o.
Proof.
  destruct (test_grid_covers_rows_exactly unit_consts (fun _ => Fin 0)
              (fun _ => Fin 0) (fun _ => Fin 0) 2 21 5 eq_refl)
    as (H1 & _ & H3).
  split.
  - apply (H1 3 0 1). vm_compute. split; [discriminate | reflexivity].
  - apply H3. vm_compute. split; [discriminate | reflexivity].
Defined.


(** ** The running maximum and the running sum *)

Local Open Scope R_scope.

Lemma exp_le_1 (x : R) : x <= 0 -> exp x <= 1.
Proof.
  intros [Hlt | ->].
  - rewrite <- exp_0. left. apply exp_increasing. exact Hlt.
  - rewrite exp_0. right. reflexivity.
Qed.

(** One merge keeps the running sum between one and one more than
    before. *)
Lemma merge_sum_bounds (L m S : R) :
  1 <= S ->
  1 <= S * exp (m + - Rmax L m) + exp (L + - Rmax L m) <= S + 1.
Proof.
  intros HS.
  pose proof (exp_pos (m + - Rmax L m)) as P1.
  pose proof (exp_pos (L + - Rmax L m)) as P2.
  pose proof (exp_le_1 (m + - Rmax L m)) as Q1.
  pose proof (exp_le_1 (L + - Rmax L m)) as Q2.
  pose proof (Rmax_l L m) as Ml. pose proof (Rmax_r L m) as Mr.
  specialize (Q1 ltac:(lra)). specialize (Q2 ltac:(lra)).
  split; [|nra].
  destruct (Rle_dec L m) as [Hle | Hgt].
  - rewrite (Rmax_right L m Hle) in *.
    replace (m + - m) with 0 in * by ring. rewrite exp_0 in *. nra.
  - rewrite (Rmax_left L m) in * by lra.
    replace (L + - L) with 0 in * by ring. rewrite exp_0 in *. nra.
Qed.

Local Close Scope R_scope.

Lemma split_body_sums {F : Type} {ops : FloatOps F} (c : stage2_consts)
    (Mid_O Mid_lse : Z -> F) (len ol : Z) (ov : list Z) (mask : list bool)
    (st : loop_state F) (s : Z) :
  split_kv_start c len s < split_kv_end c len s ->
  let tlogic := Mid_lse (ptr_logic c ol s) in
  let n_e_max := f_max tlogic (e_max st) in
  let st' := split_body c Mid_O Mid_lse len ol ov mask st s in
  e_max st' = n_e_max /\
  e_sum st'
  = f_add (f_mul (e_sum st) (f_exp (f_sub (e_max st) n_e_max)))
      (f_exp (f_sub tlogic n_e_max)).
Proof.
  intros Hne. cbv zeta. unfold split_body.
  replace (split_kv_end c len s >? split_kv_start c len s) with true
    by (symmetry; apply Z.gtb_gt; lia).
  split; reflexivity.
Qed.

Lemma sums_loop (c : stage2_consts) (Mid_O Mid_lse : Z -> xreal)
    (len q h b n : Z) :
  1 <= NUM_KV_SPLITS c -> 0 < len ->
  (forall s, 0 <= s < NUM_KV_SPLITS c ->
     split_kv_start c len s < split_kv_end c len s ->
     exists L, Mid_lse (ptr_logic c (offs_logic c q h) s) = Fin L) ->
  0 <= n <= NUM_KV_SPLITS c ->
  let st := fold_left
              (split_body c Mid_O Mid_lse len (offs_logic c q h)
                 (offs_v c q h) (mask_d c))
              (py_range 0 n) (init_state c b) in
  (Z.min (kv_len_per_split c len * n) len = 0 /\
   e_max st = NInf /\ e_sum st = Fin 0) \/
  (0 < Z.min (kv_len_per_split c len * n) len /\
   exists m S,
     e_max st = Fin m /\ e_sum st = Fin S /\
     (1 <= S <= IZR n)%R /\
     forall s L, 0 <= s < n ->
       split_kv_start c len s < split_kv_end c len s ->
       Mid_lse (ptr_logic c (offs_logic c q h) s) = Fin L -> (L <= m)%R).
Proof.
  intros HN Hlen Hfin [Hn0 HnN]. revert HnN.
  destruct (chunk_bounds c len HN Hlen) as [Hk HkN].
  pattern n. apply natlike_ind; [| |exact Hn0].
  - intros _. left. split; [lia|]. split; reflexivity.
  - intros x Hx IH HxN. specialize (IH ltac:(lia)). cbv zeta in IH |- *.
    unfold Z.succ. rewrite fold_left_py_range_snoc by exact Hx.
    set (st := fold_left _ (py_range 0 x) (init_state c b)) in *.
    destruct (Z_le_gt_dec len (kv_len_per_split c len * x)) as [Hfull | Hpart].
    + rewrite split_body_empty
        by (unfold split_kv_end, split_kv_start; lia).
      destruct IH as [(H0 & _) | (Hpos & m & S & Hm & HS & HSb & Hmax)];
        [lia|].
      right. split; [lia|]. exists m, S.
      split; [exact Hm|]. split; [exact HS|]. split.
      * rewrite plus_IZR. lra.
      * intros s L Hs Hne HL.
        assert (Hsx : s < x).
        { unfold split_kv_end, split_kv_start in Hne. nia. }
        apply (Hmax s L); [lia | exact Hne | exact HL].
    + assert (Hne : split_kv_start c len x < split_kv_end c len x)
        by (unfold split_kv_end, split_kv_start; lia).
      destruct (Hfin x ltac:(lia) Hne) as [L HL].
      destruct (split_body_sums c Mid_O Mid_lse len (offs_logic c q h)
                  (offs_v c q h) (mask_d c) st x Hne) as (E1 & E2).
      rewrite HL in E1, E2.
      right. split; [lia|].
      destruct IH as [(H0 & Hm & HS) | (Hpos & m & S & Hm & HS & HSb & Hmax)].
      * rewrite Hm in E1, E2. rewrite HS in E2.
        autorewrite with xreal in E1, E2.
        exists L, (0 * 0 + exp (L + - L))%R.
        split; [exact E1|]. split; [exact E2|].
        replace (L + - L)%R with 0%R by ring. rewrite exp_0.
        split.
        -- rewrite plus_IZR. pose proof (IZR_le 0 x Hx). lra.
        -- intros s L' Hs Hne' HL'.
           assert (s = x) by nia. subst s.
           rewrite HL in HL'. injection HL' as <-. lra.
      * rewrite Hm in E1, E2. rewrite HS in E2.
        autorewrite with xreal in E1, E2.
        exists (Rmax L m), (S * exp (m + - Rmax L m) + exp (L + - Rmax L m))%R.
        split; [exact E1|]. split; [exact E2|].
        pose proof (merge_sum_bounds L m S ltac:(lra)) as Hb.
        split.
        -- rewrite plus_IZR. lra.
        -- intros s L' Hs Hne' HL'.
           destruct (Z.eq_dec s x) as [-> | Hsx].
           ++ rewrite HL in HL'. injection HL' as <-. apply Rmax_l.
           ++ apply Rle_trans with m; [|apply Rmax_r].
              apply (Hmax s L'); [lia | exact Hne' | exact HL'].
Qed.

(** For a sequence with KV entries whose non-empty splits have finite
    log-sum-exp, the loop ends with [e_max] the largest of them and with
    [1 <= e_sum <= NUM_KV_SPLITS]: the final division is by a number that
    is neither zero nor large. *)
Theorem stage2_running_sum_bounds (c : stage2_consts)
    (kv_indptr : Z -> Z) (Mid_O Mid_lse : Z -> xreal) (b h q : Z) :
  let len := kv_indptr (b + 1) - kv_indptr b in
  1 <= NUM_KV_SPLITS c -> 0 < len ->
  (forall s, 0 <= s < NUM_KV_SPLITS c ->
     split_kv_start c len s < split_kv_end c len s ->
     exists L, Mid_lse (ptr_logic c (offs_logic c q h) s) = Fin L) ->
  exists m S,
    e_max (reduce c kv_indptr Mid_O Mid_lse b h q) = Fin m /\
    e_sum (reduce c kv_indptr Mid_O Mid_lse b h q) = Fin S /\
    (1 <= S <= IZR (NUM_KV_SPLITS c))%R /\
    forall s L, 0 <= s < NUM_KV_SPLITS c ->
      split_kv_start c len s < split_kv_end c len s ->
      Mid_lse (ptr_logic c (offs_logic c q h) s) = Fin L -> (L <= m)%R.
Proof.
  intros len HN Hlen Hfin. subst len.
  destruct (chunk_bounds c _ HN Hlen) as [Hk HkN].
  destruct (sums_loop c Mid_O Mid_lse _ q h b (NUM_KV_SPLITS c) HN Hlen Hfin
              ltac:(lia)) as [(H0 & _) | (_ & m & S & H)]; [lia|].
  exists m, S. exact H.
Qed.

Lemma stage2_running_sum_bounds_witness :
  exists m S,
    e_max (reduce two_split_consts two_kv (fun _ => Fin 0)
             (fun a => Fin (IZR a)) 0 0 0) = Fin m /\
    e_sum (reduce two_split_consts two_kv (fun _ => Fin 0)
             (fun a => Fin (IZR a)) 0 0 0) = Fin S /\
    (1 <= S <= 2)%R.
Proof.
  destruct (stage2_running_sum_bounds two_split_consts two_kv
              (fun _ => Fin 0) (fun a => Fin (IZR a)) 0 0 0
              ltac:(vm_compute; discriminate) eq_refl
              ltac:(intros s _ _; eexists; reflexivity))
    as (m & S & Hm & HS & Hb & _).
  exists m, S. split; [exact Hm|]. split; [exact HS | exact Hb].
Defined.

(** The loop state holds the normaliser of the whole sequence: under the
    stage-1 contract, [e_max + ln e_sum] after the loop is the
    log-sum-exp over all KV positions, although the kernel stores only
    the output row. *)
Theorem stage2_state_holds_full_lse (c : stage2_consts)
    (kv_indptr : Z -> Z) (Mid_O Mid_lse : Z -> xreal) (b h q : Z)
    (l : Z -> R) (v : Z -> Z -> R) :
  let len := kv_indptr (b + 1) - kv_indptr b in
  1 <= NUM_KV_SPLITS c -> 0 < len ->
  stage1_contract c Mid_O Mid_lse len q h l v ->
  exists m S,
    e_max (reduce c kv_indptr Mid_O Mid_lse b h q) = Fin m /\
    e_sum (reduce c kv_indptr Mid_O Mid_lse b h q) = Fin S /\
    (0 < S)%R /\
    (m + ln S = log_sum_exp l 0 len)%R.
Proof.
  intros len HN Hlen Hs1. subst len.
  destruct (chunk_bounds c _ HN Hlen) as [Hk HkN].
  pose proof (merged_loop c Mid_O Mid_lse _ q h l v HN Hlen Hs1 b
                (NUM_KV_SPLITS c) ltac:(lia)) as Hm.
  rewrite Z.min_r in Hm by lia.
  destruct Hm as (S & A & HS & _ & [(H0 & _) | (_ & m & Hem & HSm & _)]);
    [lia|].
  exists m, S. split; [exact Hem|]. split; [exact HS|].
  pose proof (exp_sum_pos l 0 _ Hlen) as Hpos.
  pose proof (exp_pos m) as Hexp.
  assert (HSpos : (0 < S)%R).
  { destruct (Rlt_le_dec 0 S) as [H | H]; [exact H|]. exfalso. nra. }
  split; [exact HSpos|].
  unfold log_sum_exp. rewrite <- HSm.
  rewrite ln_mult by assumption. rewrite ln_exp. ring.
Qed.

Lemma stage2_state_holds_full_lse_witness :
  let l := fun j : Z => IZR j in
  let v := fun (j d : Z) => IZR (j + 1) in
  exists m S,
    e_max (reduce two_split_consts two_kv
             (fun a => Fin (softmax_attention l v 0 a (a + 1)))
             (fun a => Fin (log_sum_exp l a (a + 1))) 0 0 0) = Fin m /\
    (m + ln S = log_sum_exp l 0 2)%R.
Proof.
  intros l v.
  assert (Hs1 : stage1_contract two_split_consts
                  (fun a => Fin (softmax_attention l v 0 a (a + 1)))
                  (fun a => Fin (log_sum_exp l a (a + 1)))
                  (two_kv (0 + 1) - two_kv 0) 0 0 l v).
  { intros s Hs _.
    assert (Hcase : s = 0 \/ s = 1) by (cbn in Hs; lia).
    destruct Hcase as [-> | ->].
    - split; [reflexivity|]. intros d Hd.
      assert (d = 0) by (cbn in Hd; lia). subst d. reflexivity.
    - split; [reflexivity|]. intros d Hd.
      assert (d = 0) by (cbn in Hd; lia). subst d. reflexivity. }
  destruct (stage2_state_holds_full_lse two_split_consts two_kv
              (fun a => Fin (softmax_attention l v 0 a (a + 1)))
              (fun a => Fin (log_sum_exp l a (a + 1))) 0 0 0 l v
              ltac:(vm_compute; discriminate) eq_refl Hs1)
    as (m & S & Hm & _ & _ & Hlse).
  exists m, S. split; [exact Hm | exact Hlse].
Defined.

(** ** Sequences no longer than one chunk *)

(** A sequence with KV entries that is no longer than [mgc] lies in split
    0 alone, whatever [NUM_KV_SPLITS] is: the other splits are empty and
    the instance stores the partial output of split 0 unchanged, provided
    its log-sum-exp is finite. *)
Theorem stage2_short_sequence_copies_split_0 (c : stage2_consts)
    (qo_indptr kv_indptr : Z -> Z) (Mid_O Mid_lse : Z -> xreal)
    (b h o : Z) (O : Z -> xreal) (L : R) :
  let len := kv_indptr (b + 1) - kv_indptr b in
  let q := qo_indptr b + o in
  1 <= NUM_KV_SPLITS c ->
  0 < len <= mgc c ->
  q <= qo_indptr (b + 1) ->
  Mid_lse (ptr_logic c (offs_logic c q h) 0) = Fin L ->
  (split_kv_start c len 0 = 0 /\ split_kv_end c len 0 = len) /\
  (forall s, 1 <= s -> split_kv_end c len s <= split_kv_start c len s) /\
  forall d, 0 <= d < Lv c -> d < BLOCK_DV c ->
    stage2_output c qo_indptr kv_indptr Mid_O Mid_lse b h o O d
    = direct_output c Mid_O q h d.
Proof.
  intros len q. subst len q. intros HN Hlen Hg HL.
  set (len := kv_indptr (b + 1) - kv_indptr b) in *.
  assert (Hk : len <= kv_len_per_split c len)
    by (unfold kv_len_per_split; lia).
  assert (Hrest : forall s, 1 <= s ->
            split_kv_end c len s <= split_kv_start c len s).
  { intros s Hs. unfold split_kv_end, split_kv_start. nia. }
  assert (Hne : split_kv_start c len 0 < split_kv_end c len 0)
    by (unfold split_kv_end, split_kv_start; lia).
  split; [unfold split_kv_end, split_kv_start; lia|].
  split; [exact Hrest|].
  intros d Hd HB.
  assert (Hred : reduce c kv_indptr Mid_O Mid_lse b h (qo_indptr b + o)
                 = split_body c Mid_O Mid_lse len
                     (offs_logic c (qo_indptr b + o) h)
                     (offs_v c (qo_indptr b + o) h) (mask_d c)
                     (init_state c b) 0).
  { unfold reduce. fold len.
    rewrite (py_range_cons 0 (NUM_KV_SPLITS c)) by lia.
    cbn [fold_left]. apply fold_left_fixed.
    intros s Hs. apply In_py_range in Hs.
    apply split_body_empty. apply Hrest. lia. }
  destruct (split_body_nonempty c Mid_O Mid_lse len (qo_indptr b + o) h 0
              (init_state c b) (fun _ => f_zero) Hne eq_refl)
    as (E1 & E2 & E3).
  cbn [init_state e_sum e_max] in E1, E3.
  rewrite HL in E1, E3. autorewrite with xreal in E1, E3.
  replace (L + - L)%R with 0%R in E1, E3 by ring.
  rewrite exp_0 in E1, E3.
  unfold stage2_output, direct_output.
  rewrite (kernel_output_lane c qo_indptr kv_indptr Mid_O Mid_lse b h o d O
             _ Hg ltac:(rewrite Hred; exact E3)) by lia.
  rewrite Hred, E1.
  replace (d <? Lv c) with true by (symmetry; apply Z.ltb_lt; lia).
  replace ((qo_indptr b + o) * stride_mid_ob c + h * stride_mid_oh c)
    with (offs_logic c (qo_indptr b + o) h) by reflexivity.
  replace (offs_logic c (qo_indptr b + o) h * Lv c + d
           + 0 * stride_mid_os c * Lv c)
    with (offs_logic c (qo_indptr b + o) h * Lv c + d) by ring.
  apply xreal_single_merge.
Qed.

Lemma stage2_short_sequence_copies_split_0_witness :
  stage2_output two_split_consts one_query one_kv (fun a => Fin (IZR a + 7))
    (fun _ => Fin 3) 0 0 0 (fun _ => Fin 0) 0
  = direct_output two_split_consts (fun a => Fin (IZR a + 7))
      (one_query 0 + 0) 0 0.
Proof.
  destruct (stage2_short_sequence_copies_split_0 two_split_consts one_query
              one_kv (fun a => Fin (IZR a + 7)) (fun _ => Fin 3) 0 0 0
              (fun _ => Fin 0) 3%R
              ltac:(vm_compute; discriminate)
              ltac:(vm_compute; split; [reflexivity | discriminate])
              ltac:(vm_compute; discriminate) eq_refl)
    as (_ & _ & Hlane).
  apply (Hlane 0 ltac:(vm_compute; split; [discriminate | reflexivity])
           eq_refl).
Defined.

(** ** The splits of a sequence *)

(** For a sequence with KV entries, position [j] belongs to the split
    [j // kv_len_per_split] and to no other: the split ranges are
    disjoint, lie in increasing order and leave no position out, and the
    splits from [ceil(len / kv_len_per_split)] on are empty. *)
Theorem stage2_splits_partition (c : stage2_consts) (len j : Z) :
  1 <= NUM_KV_SPLITS c -> 0 < len -> 0 <= j < len ->
  let s := j / kv_len_per_split c len in
  0 <= s < NUM_KV_SPLITS c /\
  split_kv_start c len s <= j < split_kv_end c len s /\
  (forall s', split_kv_start c len s' <= j < split_kv_end c len s' ->
              s' = s) /\
  (forall s', tl_cdiv len (kv_len_per_split c len) <= s' ->
              split_kv_end c len s' <= split_kv_start c len s').
Proof.
  intros HN Hlen Hj. cbv zeta.
  destruct (chunk_bounds c len HN Hlen) as [Hk HkN].
  set (k := kv_len_per_split c len) in *.
  pose proof (Z.div_mod j k ltac:(lia)) as E.
  pose proof (Z.mod_pos_bound j k ltac:(lia)) as Bm.
  unfold split_kv_end, split_kv_start. fold k.
  split; [|split; [|split]].
  - split; [apply Z.div_pos; lia | apply Z.div_lt_upper_bound; nia].
  - nia.
  - intros s' Hs'. apply (Z.div_unique j k s' (j - k * s')); lia.
  - intros s' Hs'.
    pose proof (tl_cdiv_ceil len k ltac:(lia) ltac:(lia)) as Hc. nia.
Qed.

Lemma stage2_splits_partition_witness :
  0 <= 150 / kv_len_per_split two_split_consts 200 < 2 /\
  split_kv_start two_split_consts 200 1 <= 150
  < split_kv_end two_split_consts 200 1.
Proof.
  destruct (stage2_splits_partition two_split_consts 200 150
              ltac:(vm_compute; discriminate) eq_refl
              ltac:(vm_compute; split; [discriminate | reflexivity]))
    as (H1 & H2 & _).
  split; [exact H1 | exact H2].
Defined.


(** ** More on [get_meta_param] *)

Lemma py_mapM_length {A B : Type} (f : A -> py B) (l : list A)
    (ys : list B) :
  py_mapM f l = Return ys -> List.length ys = List.length l.
Proof.
  revert ys. induction l as [|x l IH]; intros ys; simpl.
  - intros [= <-]. reflexivity.
  - destruct (f x) as [y|e]; simpl; [|discriminate].
    destruct (py_mapM f l) as [ys'|e]; simpl; [|discriminate].
    intros [= <-]. simpl. f_equal. apply IH. reflexivity.
Qed.

Lemma heuristic_splits_only_zero_division (cu_num bs total_kv : Z)
    (e : exception) :
  heuristic_splits cu_num bs total_kv = Raise e -> e = ZeroDivisionError.
Proof.
  unfold heuristic_splits.
  destruct (py_truediv _ _) as [avg|e1] eqn:E1; cbn [py_bind].
  - destruct (py_mapM _ _) as [tmp|e2] eqn:E2; cbn [py_bind].
    + intros H. exfalso.
      apply py_mapM_length in E2. rewrite candidates_1_16 in E2.
      pose proof (hd_sorted_desc tmp) as Hhd.
      destruct (sorted_desc tmp) as [|x s]; [|discriminate H].
      destruct tmp as [|t tmp]; [discriminate E2|].
      simpl in Hhd. destruct (first_max tmp) as [b0|];
        [destruct (Qlt_bool (fst t) (fst b0))|]; discriminate Hhd.
    + intros [= <-].
      destruct (py_mapM_raises _ _ _ E2) as (x & _ & Hx).
      exact (score_entry_raises _ _ _ _ _ Hx).
  - intros [= <-]. exact (py_truediv_raises _ _ _ E1).
Qed.

Lemma get_meta_param_raise_kinds (cu_num : Z) (num_kv_splits : option Z)
    (bs total_kv nhead max_seqlen_q : Z) (e : exception) :
  get_meta_param cu_num num_kv_splits bs total_kv nhead max_seqlen_q
  = Raise e ->
  (e = ZeroDivisionError /\ num_kv_splits = None) \/
  (e = AssertionError_nhead nhead /\ nhead <> 16 /\ nhead <> 128).
Proof.
  unfold get_meta_param.
  destruct (resolve_num_kv_splits _ _ _ _) as [n|e1] eqn:E1; cbn [py_bind].
  - cbn. destruct (nhead =? 16) eqn:H16; [discriminate|].
    destruct (nhead =? 128) eqn:H128; [discriminate|].
    intros [= <-]. right.
    apply Z.eqb_neq in H16. apply Z.eqb_neq in H128. tauto.
  - intros [= <-]. left. destruct num_kv_splits; [discriminate|].
    split; [|reflexivity].
    exact (heuristic_splits_only_zero_division _ _ _ _ E1).
Qed.

(** Without a split count, [get_meta_param] divides before it looks
    [nhead] up: for an empty batch, or for a device reporting no compute
    unit, it raises [ZeroDivisionError] whatever [nhead] is.  Its only
    exceptions are that one and the [nhead] assertion. *)
Theorem get_meta_param_division_comes_first (cu_num : Z)
    (num_kv_splits : option Z) (bs total_kv nhead max_seqlen_q : Z) :
  get_meta_param cu_num None 0 total_kv nhead max_seqlen_q
  = Raise ZeroDivisionError /\
  (bs <> 0 ->
   get_meta_param 0 None bs total_kv nhead max_seqlen_q
   = Raise ZeroDivisionError) /\
  (forall e,
     get_meta_param cu_num num_kv_splits bs total_kv nhead max_seqlen_q
     = Raise e ->
     (e = ZeroDivisionError /\ num_kv_splits = None) \/
     (e = AssertionError_nhead nhead /\ nhead <> 16 /\ nhead <> 128)).
Proof.
  split; [reflexivity|]. split.
  - intros Hbs. unfold get_meta_param, resolve_num_kv_splits, heuristic_splits.
    rewrite py_truediv_ok by (apply inject_Z_nonzero; exact Hbs).
    reflexivity.
  - intros e. apply get_meta_param_raise_kinds.
Qed.

Lemma get_meta_param_division_comes_first_witness :
  get_meta_param 0 None 3 341 32 1 = Raise ZeroDivisionError.
Proof.
  apply (proj1 (proj2 (get_meta_param_division_comes_first
                         0 None 3 341 32 1))).
  discriminate.
Defined.

Lemma spec_score_no_kv (cu_num bs i : Z) : (spec_score cu_num bs 0 i == 0)%Q.
Proof.
  unfold spec_score. cbv zeta.
  assert (H : (inject_Z 0 / inject_Z bs == 0)%Q)
    by (unfold Qdiv; apply Qmult_0_l).
  rewrite H, Qmult_0_r. unfold Qdiv. apply Qmult_0_l.
Qed.

(** A batch without any KV entry gets one split: every candidate scores
    zero, and the first of the equal scores wins. *)
Theorem heuristic_no_kv_one_split (cu_num bs nhead max_seqlen_q : Z) :
  0 < cu_num -> 0 < bs -> nhead = 16 \/ nhead = 128 ->
  exists mgc,
    get_meta_param cu_num None bs 0 nhead max_seqlen_q = Return (1, mgc).
Proof.
  intros Hc Hb Hn.
  destruct (heuristic_splits_spec cu_num bs 0 Hc Hb ltac:(lia))
    as (i & Hi & Hr & Hmax).
  assert (i = 1).
  { destruct (Z.eq_dec i 1) as [E | E]; [exact E|]. exfalso.
    destruct (Hmax 1 ltac:(lia)) as [_ Hlt].
    specialize (Hlt ltac:(lia)).
    rewrite !spec_score_no_kv in Hlt. discriminate Hlt. }
  subst i. unfold get_meta_param. cbn [resolve_num_kv_splits].
  rewrite Hi. cbn [py_bind].
  destruct Hn as [-> | ->]; eexists; reflexivity.
Qed.

Lemma heuristic_no_kv_one_split_witness :
  exists mgc, get_meta_param 80 None 4 0 128 1 = Return (1, mgc).
Proof.
  apply (heuristic_no_kv_one_split 80 4 128 1);
    [reflexivity | reflexivity | right; reflexivity].
Defined.

Lemma score_shape_increasing (b cq a ov x y : Q) :
  (0 < b -> 0 < cq -> 0 < a -> 0 < ov -> 0 < x -> x < y ->
   b * x / cq * a / (a + ov * x) < b * y / cq * a / (a + ov * y))%Q.
Proof.
  intros Hb Hc Ha Ho Hx Hxy.
  assert (Hy : (0 < y)%Q) by Lqa.lra.
  assert (Dx : (0 < a + ov * x)%Q).
  { pose proof (Qmult_lt_0_compat _ _ Ho Hx). Lqa.lra. }
  assert (Dy : (0 < a + ov * y)%Q).
  { pose proof (Qmult_lt_0_compat _ _ Ho Hy). Lqa.lra. }
  apply Qlt_shift_div_l; [exact Dy|].
  assert (E : (b * x / cq * a / (a + ov * x) * (a + ov * y)
               == b * x / cq * a * (a + ov * y) / (a + ov * x))%Q).
  { field. Lqa.lra. }
  rewrite E. apply Qlt_shift_div_r; [exact Dx|].
  assert (E2 : (b * y / cq * a * (a + ov * x)
                - b * x / cq * a * (a + ov * y)
                == (b / cq) * a * a * (y - x))%Q).
  { field. Lqa.lra. }
  assert (P : (0 < (b / cq) * a * a * (y - x))%Q).
  { assert (Hbc : (0 < b / cq)%Q)
      by (apply Qlt_shift_div_l; [exact Hc | Lqa.lra]).
    apply Qmult_lt_0_compat; [|Lqa.lra].
    apply Qmult_lt_0_compat; [|exact Ha].
    apply Qmult_lt_0_compat; [exact Hbc | exact Ha]. }
  rewrite <- E2 in P. Lqa.lra.
Qed.

Lemma ceil_multiple_small (cu_num x : Z) :
  0 < x <= cu_num -> ceil_to_compute_unit_multiple cu_num x = cu_num.
Proof.
  intros Hx. unfold ceil_to_compute_unit_multiple.
  rewrite <- (Z.div_unique (x + cu_num - 1) cu_num 1 (x - 1)); lia.
Qed.

Lemma spec_score_small_batch_increasing (cu_num bs total_kv i : Z) :
  0 < bs -> bs * 16 <= cu_num -> 0 < total_kv -> 1 <= i < 16 ->
  (spec_score cu_num bs total_kv i < spec_score cu_num bs total_kv 16)%Q.
Proof.
  intros Hb Hcu Hk Hi. unfold spec_score. cbv zeta.
  rewrite !ceil_multiple_small by nia.
  rewrite !inject_Z_mult.
  apply score_shape_increasing.
  - change 0%Q with (inject_Z 0). rewrite <- Zlt_Qlt. exact Hb.
  - change 0%Q with (inject_Z 0). rewrite <- Zlt_Qlt. lia.
  - apply Qlt_shift_div_l.
    + change 0%Q with (inject_Z 0). rewrite <- Zlt_Qlt. exact Hb.
    + rewrite Qmult_0_l. change 0%Q with (inject_Z 0).
      rewrite <- Zlt_Qlt. exact Hk.
  - reflexivity.
  - change 0%Q with (inject_Z 0). rewrite <- Zlt_Qlt. lia.
  - rewrite <- Zlt_Qlt. lia.
Qed.

(** A batch small enough that sixteen splits of every sequence still fit
    the compute units ([bs * 16 <= cu_num]) gets sixteen splits, whenever
    there is any KV entry: there the score grows with the split count. *)
Theorem heuristic_small_batch_sixteen_splits
    (cu_num bs total_kv nhead max_seqlen_q : Z) :
  0 < bs -> bs * 16 <= cu_num -> 0 < total_kv ->
  nhead = 16 \/ nhead = 128 ->
  exists mgc,
    get_meta_param cu_num None bs total_kv nhead max_seqlen_q
    = Return (16, mgc).
Proof.
  intros Hb Hcu Hk Hn.
  destruct (heuristic_splits_spec cu_num bs total_kv ltac:(lia) Hb
              ltac:(lia)) as (i & Hi & Hr & Hmax).
  assert (i = 16).
  { destruct (Z.eq_dec i 16) as [E | E]; [exact E|]. exfalso.
    destruct (Hmax 16 ltac:(lia)) as [Hle _].
    pose proof (spec_score_small_batch_increasing cu_num bs total_kv i
                  Hb Hcu Hk ltac:(lia)) as Hlt.
    exact (Qlt_not_le _ _ Hlt Hle). }
  subst i. unfold get_meta_param. cbn [resolve_num_kv_splits].
  rewrite Hi. cbn [py_bind].
  destruct Hn as [-> | ->]; eexists; reflexivity.
Qed.

Lemma heuristic_small_batch_sixteen_splits_witness :
  exists mgc, get_meta_param 80 None 5 1280 128 2 = Return (16, mgc).
Proof.
  apply (heuristic_small_batch_sixteen_splits 80 5 1280 128 2);
    [reflexivity | discriminate | reflexivity | right; reflexivity].
Defined.


(** ** More on the entry points *)



(** A call for 16 heads and one query token per sequence always goes
    through stage 2, also with a single split: it allocates the scratch
    [logits], launches the kernel with [mgc = 64] and returns the scratch
    tensors, never a view of [o]. *)
Theorem decode_16_heads_single_token_uses_stage2 (cu_num : Z)
    (a : decode_args) (w : list call) (out lse : tensor) :
  d_nhead a = 16 -> d_max_seqlen_q a = 1 ->
  run (mla_decode_fwd cu_num a) = (w, Return (out, lse)) ->
  exists n,
    out = scratch_logits a n /\ lse = scratch_lse a n /\
    In (torch_empty (scratch_logits a n)) w /\
    In (launch_stage2 (d_bs a, 16, 1) (scratch_logits a n) (scratch_lse a n)
          (caller_o a)
          (launch_consts a (scratch_lse a n) n
             (next_power_of_2 (d_v_head_dim a)) (d_v_head_dim a) 64)) w.
Proof.
  intros Hnh Hmsq Hrun.
  destruct (decode_success_cases cu_num a w (out, lse) Hrun)
    as (sc & n & mgc & _ & _ & Hm & Hcase).
  destruct Hcase as [(_ & Hns & _) | (_ & -> & Hr)]; [tauto|].
  injection Hr as -> ->.
  destruct (get_meta_param_returns _ _ _ _ _ _ _ _ Hm) as (_ & _ & Hmgc).
  rewrite Hnh, Hmsq in Hmgc. cbn in Hmgc. subst mgc.
  exists n. split; [reflexivity|]. split; [reflexivity|].
  rewrite Hnh, Hmsq. split.
  - do 3 right. left. reflexivity.
  - do 6 right. left. reflexivity.
Qed.

Lemma decode_16_heads_single_token_uses_stage2_witness :
  exists n,
    scratch_logits (decode_call 16 1 (Some 1) 0) 1
    = scratch_logits (decode_call 16 1 (Some 1) 0) n /\
    In (torch_empty (scratch_logits (decode_call 16 1 (Some 1) 0) n))
       (fst (run (mla_decode_fwd 80 (decode_call 16 1 (Some 1) 0)))).
Proof.
  destruct (decode_16_heads_single_token_uses_stage2 80
              (decode_call 16 1 (Some 1) 0)
              (fst (run (mla_decode_fwd 80 (decode_call 16 1 (Some 1) 0))))
              (scratch_logits (decode_call 16 1 (Some 1) 0) 1)
              (scratch_lse (decode_call 16 1 (Some 1) 0) 1)
              eq_refl eq_refl eq_refl) as (n & H1 & _ & H3 & _).
  exists n. split; [exact H1 | exact H3].
Defined.

Lemma py_mapM_In {A B : Type} (f : A -> py B) (l : list A) (ys : list B)
    (y : B) :
  py_mapM f l = Return ys -> In y ys -> exists x, In x l /\ f x = Return y.
Proof.
  revert ys. induction l as [|x l IH]; intros ys; simpl.
  - intros [= <-] [].
  - destruct (f x) as [y0|e] eqn:Ex; simpl; [|discriminate].
    destruct (py_mapM f l) as [ys'|e]; simpl; [|discriminate].
    intros [= <-] [<- | Hin].
    + exists x. split; [left; reflexivity | exact Ex].
    + destruct (IH ys' eq_refl Hin) as (x' & Hx' & Hf).
      exists x'. split; [right; exact Hx' | exact Hf].
Qed.

Lemma first_max_In (l : list (Q * Z)) (x : Q * Z) :
  first_max l = Some x -> In x l.
Proof.
  revert x. induction l as [|y l IH]; intros x; simpl; [discriminate|].
  destruct (first_max l) as [b0|].
  - destruct (Qlt_bool (fst y) (fst b0)); intros [= <-].
    + right. apply IH. reflexivity.
    + left. reflexivity.
  - intros [= <-]. left. reflexivity.
Qed.

Lemma score_entry_index (cu_num bs : Z) (avg_kv : Q) (i : Z) (r : Q * Z) :
  score_entry cu_num bs avg_kv i = Return r -> snd r = i.
Proof.
  unfold score_entry.
  destruct (py_floordiv _ _) as [q|]; cbn [py_bind]; [|discriminate].
  destruct (py_truediv _ _) as [t|]; cbn [py_bind]; [|discriminate].
  destruct (py_truediv _ _) as [u|]; cbn [py_bind]; [|discriminate].
  intros [= <-]. reflexivity.
Qed.

Lemma heuristic_splits_range (cu_num bs total_kv n : Z) :
  heuristic_splits cu_num bs total_kv = Return n -> 1 <= n <= 16.
Proof.
  unfold heuristic_splits.
  destruct (py_truediv _ _) as [avg|]; cbn [py_bind]; [|discriminate].
  destruct (py_mapM _ _) as [tmp|] eqn:E; cbn [py_bind]; [|discriminate].
  pose proof (hd_sorted_desc tmp) as Hhd.
  destruct (sorted_desc tmp) as [|x s]; [discriminate|].
  intros [= <-]. simpl in Hhd. symmetry in Hhd.
  apply first_max_In in Hhd.
  destruct (py_mapM_In _ _ _ _ E Hhd) as (i & Hi & Hf).
  rewrite (score_entry_index _ _ _ _ _ Hf).
  apply In_candidates. exact Hi.
Qed.

(** What reaches the kernel when [mla_decode_fwd] launches stage 2:
    the grid is [(bs, nhead, max_seqlen_q)] with [nhead] 16 or 128, [mgc]
    is 16 or 64, [BLOCK_DV] covers the [v_head_dim] value lanes, and a
    split count chosen by the heuristic lies between 1 and 16.  A split
    count given by the caller is passed on as it is, not checked. *)
Theorem decode_launch_arguments (cu_num : Z) (a : decode_args)
    (w : list call) (grid : Z * Z * Z) (t1 t2 t3 : tensor)
    (c : stage2_consts) (r : tensor * tensor) :
  run (mla_decode_fwd cu_num a) = (w, Return r) ->
  In (launch_stage2 grid t1 t2 t3 c) w ->
  grid = (d_bs a, d_nhead a, d_max_seqlen_q a) /\
  (nheads c = 16 \/ nheads c = 128) /\
  (mgc c = 16 \/ mgc c = 64) /\
  Lv c = d_v_head_dim a /\
  (0 < Lv c -> Lv c <= BLOCK_DV c) /\
  (d_num_kv_splits a = None -> 1 <= NUM_KV_SPLITS c <= 16) /\
  (forall n, d_num_kv_splits a = Some n -> NUM_KV_SPLITS c = n) /\
  t3 = caller_o a /\ t1 = fst r /\ t2 = snd r.
Proof.
  intros Hrun Hin.
  destruct (decode_success_cases cu_num a w r Hrun)
    as (sc & n & mgc0 & _ & _ & Hm & Hcase).
  destruct (get_meta_param_returns _ _ _ _ _ _ _ _ Hm) as (Hnh & Hres & Hmgc).
  destruct Hcase as [(_ & _ & -> & _) | (_ & -> & ->)].
  - exfalso. cbn in Hin.
    repeat (destruct Hin as [Hin | Hin]; [discriminate Hin|]). exact Hin.
  - cbn in Hin.
    repeat (destruct Hin as [Hin | Hin]; [try discriminate Hin|]);
      [|destruct Hin].
    injection Hin as <- <- <- <- <-.
    split; [reflexivity|]. split; [exact Hnh|].
    split.
    { cbn [launch_consts mgc]. rewrite Hmgc.
      destruct ((d_max_seqlen_q a =? 1) && (d_nhead a =? 16)); auto. }
    split; [reflexivity|].
    split; [intros Hv; apply next_power_of_2_ge; exact Hv|].
    split.
    { intros Hnone. unfold decode_meta in Hm. rewrite Hnone in Hres.
      cbn [launch_consts NUM_KV_SPLITS].
      exact (heuristic_splits_range _ _ _ _ Hres). }
    split.
    { intros n' Hsome. rewrite Hsome in Hres. cbn in Hres.
      injection Hres as <-. reflexivity. }
    auto.
Qed.

Lemma decode_launch_arguments_witness :
  exists c,
    In (launch_stage2 (3, 128, 1)
          (scratch_logits (decode_call 128 1 None 0) 16)
          (scratch_lse (decode_call 128 1 None 0) 16)
          (caller_o (decode_call 128 1 None 0)) c)
       (fst (run (mla_decode_fwd 80 (decode_call 128 1 None 0)))) /\
    1 <= NUM_KV_SPLITS c <= 16 /\ Lv c <= BLOCK_DV c.
Proof.
  set (a := decode_call 128 1 None 0).
  set (c := launch_consts a (scratch_lse a 16) 16
              (next_power_of_2 (d_v_head_dim a)) (d_v_head_dim a) 16).
  assert (Hin : In (launch_stage2 (3, 128, 1) (scratch_logits a 16)
                      (scratch_lse a 16) (caller_o a) c)
                   (fst (run (mla_decode_fwd 80 a)))).
  { do 6 right. left. reflexivity. }
  destruct (decode_launch_arguments 80 a (fst (run (mla_decode_fwd 80 a)))
              (3, 128, 1) (scratch_logits a 16) (scratch_lse a 16)
              (caller_o a) c (scratch_logits a 16, scratch_lse a 16)
              eq_refl Hin) as (_ & _ & _ & _ & HB & HN & _).
  exists c. split; [exact Hin|]. split; [apply HN; reflexivity|].
  apply HB. reflexivity.
Defined.

(** A split count of zero or less is accepted by the kernel: the loop
    does not run, nothing is loaded from the partial results, and every
    in-range instance stores the quotient of zero by zero, whatever the
    KV length. *)
Theorem stage2_no_splits_stores_zero_by_zero {F : Type} {ops : FloatOps F}
    (c : stage2_consts) (qo_indptr kv_indptr : Z -> Z)
    (Mid_O Mid_lse : Z -> F) (b h o : Z) (O : Z -> F) :
  NUM_KV_SPLITS c <= 0 ->
  qo_indptr b + o <= qo_indptr (b + 1) ->
  trace (_fwd_kernel_stage2_asm c qo_indptr kv_indptr Mid_O Mid_lse
           (b, h, o) O)
  = [Load B_qo_indptr [b]; Load B_qo_indptr [b + 1];
     Load B_kv_indptr [b + 1]; Load B_kv_indptr [b];
     Store B_O
       (map (fun d => (qo_indptr b + o) * stride_obs c + h * stride_oh c + d)
          (py_range 0 (Z.min (BLOCK_DV c) (Lv c))))] /\
  forall d, 0 <= d < BLOCK_DV c -> d < Lv c ->
    O_out (_fwd_kernel_stage2_asm c qo_indptr kv_indptr Mid_O Mid_lse
             (b, h, o) O)
      ((qo_indptr b + o) * stride_obs c + h * stride_oh c + d)
    = f_div f_zero f_zero.
Proof.
  intros HN Hg. split.
  - rewrite kernel_trace_in_range by exact Hg.
    rewrite (py_range_empty 0 (NUM_KV_SPLITS c)) by exact HN. reflexivity.
  - intros d Hd HLv.
    assert (Hred : reduce c kv_indptr Mid_O Mid_lse b h (qo_indptr b + o)
                   = init_state c b).
    { unfold reduce. rewrite py_range_empty by exact HN. reflexivity. }
    rewrite (kernel_output_lane c qo_indptr kv_indptr Mid_O Mid_lse b h o d O
               (fun _ => f_zero) Hg);
      rewrite ?Hred; try reflexivity; assumption.
Qed.

Lemma stage2_no_splits_stores_zero_by_zero_witness :
  let c := {| stride_mid_ob := 0; stride_mid_oh := 1; stride_mid_os := 1;
              stride_obs := 1; stride_oh := 1;
              bs := 1; nheads := 1; max_seqlen_q := 1;
              NUM_KV_SPLITS := 0; BLOCK_DV := 1; Lv := 1; mgc := 16 |} in
  O_out (_fwd_kernel_stage2_asm c one_query one_kv (fun _ => Fin 1)
           (fun _ => Fin 0) (0, 0, 0) (fun _ => Fin 1)) 0
  = xdiv (Fin 0) (Fin 0).
Proof.
  intros c.
  destruct (stage2_no_splits_stores_zero_by_zero c one_query one_kv
              (fun _ => Fin 1) (fun _ => Fin 0) 0 0 0 (fun _ => Fin 1)
              ltac:(vm_compute; discriminate)
              ltac:(vm_compute; discriminate)) as [_ Hlane].
  apply (Hlane 0 ltac:(vm_compute; split; [discriminate | reflexivity])
           eq_refl).
Defined.

(** [mla_prefill_fwd] returns exactly when [logit_cap <= 0] and
    [sm_scale] is given.  It then allocates the log-sum-exp alone, one
    scalar per row and head of [o], calls the prefill kernel once on [o]
    viewed with one split, launches no stage 2 and returns [o] itself. *)
Theorem prefill_returns_iff (p : prefill_args) :
  ((exists w r, run (mla_prefill_fwd p) = (w, Return r)) <->
   ((p_logit_cap p <= 0)%Q /\ exists s, p_sm_scale p = Some s)) /\
  (forall w out lse,
     run (mla_prefill_fwd p) = (w, Return (out, lse)) ->
     let '(bs, nhead, v_head_dim) := p_o_shape p in
     out = {| storage_of := Caller_o; shape := [bs; nhead; v_head_dim] |} /\
     lse = {| storage_of := Empty_attn_lse; shape := [bs; 1; nhead; 1] |} /\
     numel lse = bs * nhead /\
     exists s,
       p_sm_scale p = Some s /\
       w = [torch_empty lse;
            mla_prefill_asm_fwd (p_max_seqlen_q p) (Scale s)
              {| storage_of := Caller_o;
                 shape := [bs; 1; nhead; v_head_dim] |} lse]).
Proof.
  split.
  - split.
    + intros (w & r & Hrun).
      destruct (Qlt_le_dec 0 (p_logit_cap p)) as [Hlt | Hle].
      * rewrite (prefill_logit_cap p Hlt) in Hrun. discriminate.
      * split; [exact Hle|].
        destruct (p_sm_scale p) as [s|] eqn:Hs; [eauto|].
        rewrite (prefill_no_scale p Hle Hs) in Hrun. discriminate.
    + intros (Hle & s & Hs). exact (prefill_with_scale p s Hle Hs).
  - intros w out lse Hrun.
    destruct (Qlt_le_dec 0 (p_logit_cap p)) as [Hlt | Hle].
    { rewrite (prefill_logit_cap p Hlt) in Hrun. discriminate. }
    destruct (p_sm_scale p) as [s|] eqn:Hs.
    2:{ rewrite (prefill_no_scale p Hle Hs) in Hrun. discriminate. }
    apply Qle_bool_iff in Hle. revert Hrun.
    unfold mla_prefill_fwd. run_monad. rewrite Hle, Hs.
    destruct (p_kv_buffer_shape p) as [[[np ps] nkv] qk].
    destruct (p_o_shape p) as [[b nh] v].
    intros [= <- <- <-].
    split; [reflexivity|]. split; [reflexivity|].
    split; [unfold numel; cbn [shape fold_right]; ring|].
    exists s. split; reflexivity.
Qed.

Lemma prefill_returns_iff_witness :
  exists w r, run (mla_prefill_fwd (prefill_call (Some (1 # 24)) 0))
              = (w, Return r).
Proof.
  apply (proj1 (prefill_returns_iff (prefill_call (Some (1 # 24)) 0))).
  split; [discriminate|]. eexists. reflexivity.
Defined.

(** ** Entry point and kernel together *)

(** The launch of [mla_decode_fwd], with [o] contiguous, in terms of the
    tensors themselves: if for the query row [q] and head [h] every
    non-empty split [s] holds in [attn_lse[q, s, h]] the log-sum-exp and
    in [logits[q, s, h, :]] the attention output of its range of KV
    positions, the instance for that row stores in [o[q, h, :]] the
    softmax attention over the whole sequence. *)
Theorem decode_stage2_end_to_end (a : decode_args) (n mgc0 : Z)
    (qo_indptr kv_indptr : Z -> Z) (logits attn_lse o_mem : Z -> xreal)
    (b h off : Z) (l : Z -> R) (v : Z -> Z -> R) :
  let nh := d_nhead a in
  let dv := d_v_head_dim a in
  let c := launch_consts a (scratch_lse a n) n (next_power_of_2 dv) dv mgc0 in
  let q := qo_indptr b + off in
  let len := kv_indptr (b + 1) - kv_indptr b in
  1 <= n -> 1 <= nh ->
  d_o_stride a = (nh * dv, dv) ->
  q <= qo_indptr (b + 1) -> 0 < len ->
  (forall s, 0 <= s < n ->
     split_kv_start c len s < split_kv_end c len s ->
     attn_lse (flat_index n nh 1 q s h 0)
     = Fin (log_sum_exp l (split_kv_start c len s) (split_kv_end c len s)) /\
     forall d, 0 <= d < dv ->
       logits (flat_index n nh dv q s h d)
       = Fin (softmax_attention l v d
                (split_kv_start c len s) (split_kv_end c len s))) ->
  forall d, 0 <= d < dv ->
    O_out (_fwd_kernel_stage2_asm c qo_indptr kv_indptr logits attn_lse
             (b, h, off) o_mem)
      (flat_index 1 nh dv q 0 h d)
    = Fin (softmax_attention l v d 0 len).
Proof.
  intros nh dv c q len. subst nh dv.
  intros Hn Hnh Hstride Hg Hlen Hfill d Hd.
  destruct (launch_strides a n (next_power_of_2 (d_v_head_dim a))
              (d_v_head_dim a) mgc0 Hn Hnh) as (Hob & Hoh & Hos).
  fold c in Hob, Hoh, Hos.
  assert (Hobs : stride_obs c = d_nhead a * d_v_head_dim a)
    by (unfold c, launch_consts; cbn [stride_obs]; rewrite Hstride;
        reflexivity).
  assert (Hohs : stride_oh c = d_v_head_dim a)
    by (unfold c, launch_consts; cbn [stride_oh]; rewrite Hstride;
        reflexivity).
  assert (HLv : Lv c = d_v_head_dim a) by reflexivity.
  assert (HB : BLOCK_DV c = next_power_of_2 (d_v_head_dim a))
    by reflexivity.
  assert (HN : NUM_KV_SPLITS c = n) by reflexivity.
  clearbody c.
  assert (Hcontract : stage1_contract c logits attn_lse len q h l v).
  { intros s Hs Hne. rewrite HN in Hs.
    destruct (Hfill s Hs Hne) as [HL HT]. split.
    - rewrite <- HL. f_equal.
      unfold ptr_logic, offs_logic, flat_index. rewrite Hob, Hoh, Hos. ring.
    - intros d' Hd'. rewrite HLv in Hd'. rewrite <- (HT d' Hd'). f_equal.
      unfold flat_index. rewrite Hob, Hoh, Hos, HLv. ring. }
  replace (flat_index 1 (d_nhead a) (d_v_head_dim a) q 0 h d)
    with (q * stride_obs c + h * stride_oh c + d)
    by (unfold flat_index; rewrite Hobs, Hohs; ring).
  apply stage2_exact_lane; try assumption; try lia.
  rewrite HB. pose proof (next_power_of_2_ge (d_v_head_dim a) ltac:(lia)).
  lia.
Qed.

Lemma decode_stage2_end_to_end_witness :
  let a := {| d_kv_buffer_shape := (2, 1, 1, 576);
              d_o_shape := (1, 1, 1);
              d_o_stride := (1, 1);
              d_qo_indptr_shape0 := 2;
              d_kv_indices_shape0 := 2;
              d_max_seqlen_q := 1;
              d_sm_scale := None;
              d_logit_cap := 0;
              d_num_kv_splits := Some 2 |} in
  let c := launch_consts a (scratch_lse a 2) 2 (next_power_of_2 1) 1 1 in
  let l := fun j : Z => IZR j in
  let v := fun (j d : Z) => IZR (j + 1) in
  O_out (_fwd_kernel_stage2_asm c one_query two_kv
           (fun i => Fin (softmax_attention l v 0 i (i + 1)))
           (fun i => Fin (log_sum_exp l i (i + 1)))
           (0, 0, 0) (fun _ => Fin 0)) 0
  = Fin (softmax_attention l v 0 0 2).
Proof.
  intros a c l v.
  apply (decode_stage2_end_to_end a 2 1 one_query two_kv
           (fun i => Fin (softmax_attention l v 0 i (i + 1)))
           (fun i => Fin (log_sum_exp l i (i + 1)))
           (fun _ => Fin 0) 0 0 0 l v);
    try (vm_compute; discriminate); try reflexivity.
  - intros s Hs _.
    assert (Hcase : s = 0 \/ s = 1) by lia.
    destruct Hcase as [-> | ->].
    + split; [reflexivity|]. intros d Hd.
      assert (d = 0) by (cbn in Hd; lia). subst d. reflexivity.
    + split; [reflexivity|]. intros d Hd.
      assert (d = 0) by (cbn in Hd; lia). subst d. reflexivity.
  - vm_compute. split; [discriminate | reflexivity].
Defined.
